(** * knowledgehunter: the YouTube transcript services

    A shallow embedding of [src/app.py] (Service B: the three endpoints
    built on youtube_transcript_api and yt-dlp) and of [src/api/index.py]
    (Service A: the Apify-backed endpoint), with the properties of the
    specification stated and settled against it.

    Python strings are modelled by [string]: a character is a code point
    below 256.  The only characters either file tells apart are ASCII. *)

From Stdlib Require Import ZArith Ascii String PrimFloat FloatOps SpecFloat.
From stdpp Require Import gmap strings list pretty.

Set Warnings "-inexact-float,-register-all".
Set Default Proof Using "Type".

Open Scope string_scope.

(** ** Strings *)

Module Str.

(** [s.startswith(l)], returning what follows the prefix. *)
Fixpoint strip_prefix (l s : string) : option string :=
  match l with
  | EmptyString => Some s
  | String a l' =>
      match s with
      | EmptyString => None
      | String b s' => if Ascii.eqb a b then strip_prefix l' s' else None
      end
  end.

(** [l in s]: the literal [l] occurs somewhere in [s]. *)
Fixpoint occurs (l s : string) : bool :=
  match strip_prefix l s with
  | Some _ => true
  | None =>
      match s with
      | EmptyString => false
      | String _ s' => occurs l s'
      end
  end.

(** [s[:n]] *)
Fixpoint take (n : nat) (s : string) : string :=
  match n, s with
  | S n', String a s' => String a (take n' s')
  | _, _ => EmptyString
  end.

(** The part of [s] that was read when [s'] is what remains of it. *)
Definition consumed (s s' : string) : string :=
  take (String.length s - String.length s') s.

Fixpoint all (p : ascii → bool) (s : string) : bool :=
  match s with
  | EmptyString => true
  | String a s' => p a && all p s'
  end.

(** [sep.join(l)] *)
Fixpoint join (sep : string) (l : list string) : string :=
  match l with
  | [] => ""
  | [x] => x
  | x :: l' => x +:+ sep +:+ join sep l'
  end.

(** [c.isspace()] on code points below 256. *)
Definition isspace (c : ascii) : bool :=
  let n := nat_of_ascii c in
  (Nat.leb 9 n && Nat.leb n 13) || (Nat.leb 28 n && Nat.leb n 32)
  || Nat.eqb n 133 || Nat.eqb n 160.

Fixpoint lstrip (s : string) : string :=
  match s with
  | String a s' => if isspace a then lstrip s' else s
  | EmptyString => EmptyString
  end.

(** [s.rstrip()]: a character is dropped when it is a space and nothing but
    spaces follows it. *)
Fixpoint rstrip (s : string) : string :=
  match s with
  | EmptyString => EmptyString
  | String a s' =>
      match rstrip s' with
      | EmptyString => if isspace a then EmptyString else String a EmptyString
      | t => String a t
      end
  end.

(** [s.strip()] *)
Definition strip (s : string) : string := rstrip (lstrip s).

End Str.

(** ** Regular expressions: the fragment of [re] that [youtube_regex] uses *)

Module Re.

(** One-character items. *)
Inductive cclass :=
| CAny                        (** [.]: any character but a newline *)
| CNoneOf (cs : list ascii).  (** [[^...]] *)

Definition newline : ascii := ascii_of_nat 10.

Definition accepts (c : cclass) (a : ascii) : bool :=
  match c with
  | CAny => negb (Ascii.eqb a newline)
  | CNoneOf cs => negb (existsb (Ascii.eqb a) cs)
  end.

Inductive regex :=
| Lit (l : string)             (** literal characters *)
| Seq (r1 r2 : regex)          (** [r1 r2] *)
| Alt (r1 r2 : regex)          (** [r1|r2], [r1] tried first *)
| Opt (r : regex)              (** [r?], greedy: [r] tried first *)
| Plus (c : cclass)            (** [c+], greedy: the longest run first *)
| Rep (n : nat) (c : cclass)   (** [c{n}] *)
| Group (i : nat) (r : regex). (** the [i]-th capturing group *)

(** The groups of a match object: [m.group(i)] is [m !! i]. *)
Abbreviation groups := (gmap nat string).

Section Matcher.
Context {A : Type}.

(** What remains to be matched after an item: it receives the rest of
    the input and the groups captured so far.  [None] makes the matcher
    backtrack to its latest choice. *)
#[local] Abbreviation cont := (string → groups → option A).

Fixpoint run_plus (c : cclass) (s : string) (g : groups) (k : cont)
  : option A :=
  match s with
  | EmptyString => None
  | String a s' =>
      if accepts c a then
        match run_plus c s' g k with
        | Some x => Some x
        | None => k s' g
        end
      else None
  end.

Fixpoint run_rep (n : nat) (c : cclass) (s : string) (g : groups)
  (k : cont) : option A :=
  match n with
  | O => k s g
  | S n' =>
      match s with
      | EmptyString => None
      | String a s' => if accepts c a then run_rep n' c s' g k else None
      end
  end.

Fixpoint run (r : regex) (s : string) (g : groups) (k : cont)
  : option A :=
  match r with
  | Lit l =>
      match Str.strip_prefix l s with
      | Some s' => k s' g
      | None => None
      end
  | Seq r1 r2 => run r1 s g (λ s' g', run r2 s' g' k)
  | Alt r1 r2 =>
      match run r1 s g k with
      | Some x => Some x
      | None => run r2 s g k
      end
  | Opt r1 =>
      match run r1 s g k with
      | Some x => Some x
      | None => k s g
      end
  | Plus c => run_plus c s g k
  | Rep n c => run_rep n c s g k
  | Group i r1 =>
      run r1 s g (λ s' g', k s' (<[i := Str.consumed s s']> g'))
  end.
End Matcher.

(** [re.match(r, s)]: the match starts at the first character of [s] and
    may end anywhere. *)
Definition re_match (r : regex) (s : string) : option groups :=
  run r s ∅ (λ _ g, Some g).

End Re.

Import Re.

(** ** [extract_video_id] *)

(** [[^&=%\?]] *)
Definition id_class : cclass := CNoneOf ["&"; "="; "%"; "?"]%char.

(** [(https?://)?] *)
Definition re_scheme : regex :=
  Opt (Group 1 (Seq (Lit "http") (Seq (Opt (Lit "s")) (Lit "://")))).
(** [(www\.)?] *)
Definition re_www : regex := Opt (Group 2 (Lit "www.")).
(** [(youtube|youtu|youtube-nocookie)] *)
Definition re_host : regex :=
  Group 3 (Alt (Lit "youtube") (Alt (Lit "youtu") (Lit "youtube-nocookie"))).
(** [(com|be)] *)
Definition re_tld : regex := Group 4 (Alt (Lit "com") (Lit "be")).
(** [(watch\?v=|embed/|v/|.+\?v=)?] *)
Definition re_marker : regex :=
  Opt (Group 5 (Alt (Lit "watch?v=") (Alt (Lit "embed/") (Alt (Lit "v/")
                 (Seq (Plus CAny) (Lit "?v=")))))).
(** [([^&=%\?]{11})] *)
Definition re_id : regex := Group 6 (Rep 11 id_class).

(** What follows the host: [/(watch\?v=|embed/|v/|.+\?v=)?([^&=%\?]{11})] *)
Definition re_path : regex := Seq (Lit "/") (Seq re_marker re_id).

Definition youtube_regex : regex :=
  Seq re_scheme (Seq re_www (Seq re_host (Seq (Lit ".") (Seq re_tld re_path)))).

Definition extract_video_id (url : string) : option string :=
  match re_match youtube_regex url with
  | Some m => m !! 6
  | None => None
  end.

(** ** Python values *)

(** What the handlers put in a JSON body.  Floats are binary64, as in
    CPython. *)
Inductive pyval :=
| PNone
| PBool (b : bool)
| PInt (z : Z)
| PFloat (f : float)
| PStr (s : string)
| PList (l : list pyval)
| PDict (d : gmap string pyval).

(** [bool(v)] *)
Definition truthy (v : pyval) : bool :=
  match v with
  | PNone => false
  | PBool b => b
  | PInt z => negb (z =? 0)%Z
  | PFloat f => negb (PrimFloat.eqb f 0%float)
  | PStr s => negb (String.eqb s "")
  | PList l => match l with [] => false | _ => true end
  | PDict d => negb (bool_decide (d = ∅))
  end.

(** The values yt-dlp reports for the fields read here: a string, an integer
    or nothing. *)
Inductive scalar :=
| SNone
| SInt (z : Z)
| SStr (s : string).

Definition of_scalar (v : scalar) : pyval :=
  match v with
  | SNone => PNone
  | SInt z => PInt z
  | SStr s => PStr s
  end.

(** [str(v)] *)
Definition py_str (v : scalar) : string :=
  match v with
  | SNone => "None"
  | SInt z => pretty z
  | SStr s => s
  end.

(** A caption unit, a dict with the keys [text], [start] and [duration]. *)
Record segment := Segment {
  seg_text : string;
  seg_start : float;
  seg_duration : float
}.

Definition segment_json (p : segment) : pyval :=
  PDict {[ "text" := PStr (seg_text p);
           "start" := PFloat (seg_start p);
           "duration" := PFloat (seg_duration p) ]}.

(** *** [format(x, ".2f")] *)

(** [n / d] rounded to the nearest integer, ties to even. *)
Definition round_half_even (n d : Z) : Z :=
  let q := (n / d)%Z in
  let r := (n mod d)%Z in
  match (2 * r ?= d)%Z with
  | Lt => q
  | Gt => (q + 1)%Z
  | Eq => if Z.even q then q else (q + 1)%Z
  end.

Definition two_digits (n : Z) : string :=
  pretty (n / 10)%Z +:+ pretty (n mod 10)%Z.

Definition format_2f (x : float) : string :=
  match Prim2SF x with
  | S754_nan => "nan"
  | S754_infinity s => if s then "-inf" else "inf"
  | S754_zero s => if s then "-0.00" else "0.00"
  | S754_finite s m e =>
      let hundredths :=
        if (0 <=? e)%Z then (Z.pos m * 2 ^ e * 100)%Z
        else round_half_even (Z.pos m * 100) (2 ^ (- e)) in
      (if s then "-" else "")
        +:+ pretty (hundredths / 100)%Z +:+ "."
        +:+ two_digits (hundredths mod 100)
  end.

(** ** Exceptions and effects *)

(** The subclasses of [Exception] the handlers tell apart; [str(e)] is the
    message each carries. *)
Inductive exn :=
| TranscriptsDisabled (msg : string)
| NoTranscriptFound (msg : string)
| VideoUnavailable (msg : string)
| OtherException (msg : string).

Definition exn_str (e : exn) : string :=
  match e with
  | TranscriptsDisabled msg
  | NoTranscriptFound msg
  | VideoUnavailable msg
  | OtherException msg => msg
  end.

(** The calls that leave the process. *)
Inductive call :=
| CallListTranscripts (video_id : string)
| CallFetch (language_code : string)
| CallExtractInfo (url : string)
| CallActor (run_input : pyval)
| CallDataset (dataset_id : pyval).

(** A computation either raises or returns, and logs its outbound calls. *)
Definition M (A : Type) : Type := list call → (exn + A) * list call.

Definition ret {A} (x : A) : M A := λ log, (inr x, log).
Definition raise {A} (e : exn) : M A := λ log, (inl e, log).
Definition bind {A B} (m : M A) (f : A → M B) : M B :=
  λ log,
    match m log with
    | (inl e, log') => (inl e, log')
    | (inr x, log') => f x log'
    end.

(** [try: m  except ... as e: h e] *)
Definition try_except {A} (m : M A) (h : exn → M A) : M A :=
  λ log,
    match m log with
    | (inl e, log') => h e log'
    | (inr x, log') => (inr x, log')
    end.

(** An outbound call with the outcome the provider gives it. *)
Definition perform {A} (c : call) (outcome : exn + A) : M A :=
  λ log, (outcome, (log ++ [c])%list).

(** A result that needs no call. *)
Definition lift {A} (outcome : exn + A) : M A := λ log, (outcome, log).

#[global] Instance M_ret : MRet M := @ret.
#[global] Instance M_bind : MBind M := λ A B f m, bind m f.

(** What the HTTP layer sees of a handler started on an empty log: the
    response, or the exception that escaped it. *)
Definition outcome {A} (m : M A) : exn + A := (m []).1.
Definition calls {A} (m : M A) : list call := (m []).2.

(** [jsonify(body), status] *)
Record response := Response {
  status : nat;
  body : gmap string pyval
}.

Definition jsonify (body : gmap string pyval) : response := Response 200 body.

(** ** The providers *)

(** *** youtube_transcript_api *)

Module YouTubeTranscriptApi.

(** A [Transcript]: [fetch()] is a call of its own. *)
Record transcript := Transcript {
  language_code : string;
  fetched : exn + list segment
}.

(** A [TranscriptList]: the transcripts of a video by language code, the
    manually created ones and the generated ones. *)
Record transcript_list := TranscriptList {
  video_id : string;
  manually_created : gmap string transcript;
  generated : gmap string transcript
}.

Definition not_found_message (tl : transcript_list) : string :=
  "No transcripts were found for any of the requested language codes: "
    +:+ video_id tl.

(** [TranscriptList.find_transcript(language_codes)]: the first requested
    code that one of the two dicts has, manually created first;
    [NoTranscriptFound] when the codes run out. *)
Fixpoint find_transcript (tl : transcript_list) (language_codes : list string)
  : exn + transcript :=
  match language_codes with
  | [] => inl (NoTranscriptFound (not_found_message tl))
  | code :: codes =>
      match manually_created tl !! code with
      | Some t => inr t
      | None =>
          match generated tl !! code with
          | Some t => inr t
          | None => find_transcript tl codes
          end
      end
  end.

End YouTubeTranscriptApi.

Import YouTubeTranscriptApi.

(** *** The world outside *)

Record world := World {
  (** [YouTubeTranscriptApi.list_transcripts(video_id)] *)
  list_transcripts_of : string → exn + transcript_list;
  (** [YoutubeDL(opts).extract_info(url, download=False)] *)
  extract_info_of : string → exn + gmap string scalar;
  (** [apify_client.actor(...).call(run_input=...)] *)
  actor_call_of : pyval → exn + pyval;
  (** [list(apify_client.dataset(dataset_id).iterate_items())] *)
  dataset_items_of : pyval → exn + list pyval
}.

Section Providers.
Context (w : world).

Definition list_transcripts (video_id : string) : M transcript_list :=
  perform (CallListTranscripts video_id) (list_transcripts_of w video_id).

Definition fetch (t : transcript) : M (list segment) :=
  perform (CallFetch (language_code t)) (fetched t).

(** [YouTubeTranscriptApi.get_transcript(video_id, languages)], which the
    library defines as [list_transcripts], [find_transcript], [fetch]. *)
Definition api_get_transcript (video_id : string) (languages : list string)
  : M (list segment) :=
  tl ← list_transcripts video_id;
  t ← lift (find_transcript tl languages);
  fetch t.

(** [download_info(url)] of [src/app.py] *)
Definition download_info (url : string) : M (gmap string scalar) :=
  perform (CallExtractInfo url) (extract_info_of w url).

End Providers.

(** [d.get(key, default)] *)
Definition dict_get (d : gmap string scalar) (key : string) (dflt : scalar)
  : scalar :=
  default dflt (d !! key).

(** [d[key]] on a dict of the handler's own. *)
Definition getitem (d : gmap string pyval) (key : string) : M pyval :=
  match d !! key with
  | Some v => ret v
  | None => raise (OtherException ("'" +:+ key +:+ "'"))
  end.

(** The name of a value's type, as the interpreter's messages give it. *)
Definition type_name (v : pyval) : string :=
  match v with
  | PNone => "NoneType"
  | PBool _ => "bool"
  | PInt _ => "int"
  | PFloat _ => "float"
  | PStr _ => "str"
  | PList _ => "list"
  | PDict _ => "dict"
  end.

(** [v[key]] on a value received from outside, for a string [key]: only a
    dict has string keys.  The texts of the [TypeError]s are those of
    CPython 3.11 to 3.13. *)
Definition subscript (v : pyval) (key : string) : M pyval :=
  match v with
  | PDict d => getitem d key
  | PList _ =>
      raise (OtherException "list indices must be integers or slices, not str")
  | PStr _ =>
      raise (OtherException "string indices must be integers, not 'str'")
  | _ =>
      raise (OtherException
               ("'" +:+ type_name v +:+ "' object is not subscriptable"))
  end.

(** [key in v] for a string [key]: a key of a dict, an element of a list, a
    substring of a string; the other values are no containers, and the test
    raises a [TypeError] (with the text of CPython 3.11 to 3.13). *)
Definition contains (v : pyval) (key : string) : M bool :=
  match v with
  | PDict d => ret (bool_decide (is_Some (d !! key)))
  | PList l =>
      ret (existsb (λ x, match x with
                         | PStr s => String.eqb s key
                         | _ => false
                         end) l)
  | PStr s => ret (Str.occurs key s)
  | _ =>
      raise (OtherException
               ("argument of type '" +:+ type_name v +:+ "' is not iterable"))
  end.

(** ** Service B: [src/app.py] *)

Module App.

Definition ALL_LANGUAGES : list string :=
  ["af"; "sq"; "am"; "ar"; "hy"; "az"; "eu"; "be"; "bn"; "bs"; "bg"; "my";
   "ca"; "ceb"; "zh"; "zh-Hans"; "zh-Hant"; "co"; "hr"; "cs"; "da"; "nl";
   "en"; "eo"; "et"; "fi"; "fr"; "fy"; "gl"; "ka"; "de"; "el"; "gu"; "ht";
   "ha"; "haw"; "he"; "hi"; "hmn"; "hu"; "is"; "ig"; "id"; "ga"; "it"; "ja";
   "jw"; "kn"; "kk"; "km"; "rw"; "ko"; "ku"; "ky"; "lo"; "la"; "lv"; "lt";
   "lb"; "mk"; "mg"; "ms"; "ml"; "mt"; "mi"; "mr"; "mn"; "ne"; "no"; "ny";
   "or"; "ps"; "fa"; "pl"; "pt"; "pa"; "ro"; "ru"; "sm"; "gd"; "sr"; "st";
   "sn"; "sd"; "si"; "sk"; "sl"; "so"; "es"; "su"; "sw"; "sv"; "tl"; "tg";
   "ta"; "tt"; "te"; "th"; "tr"; "tk"; "uk"; "ur"; "ug"; "uz"; "vi"; "cy";
   "xh"; "yi"; "yo"; "zu"].

Definition error_response (code : nat) (message : string) : response :=
  Response code {[ "success" := PBool false; "error" := PStr message ]}.

Definition missing_url : response := error_response 400 "Missing URL parameter".
Definition invalid_url : response :=
  error_response 400 "Invalid YouTube URL or couldn't extract video ID".

(** [f"https://i.ytimg.com/vi/{video_id}/hqdefault.jpg"] *)
Definition thumbnail_url (video_id : string) : string :=
  "https://i.ytimg.com/vi/" +:+ video_id +:+ "/hqdefault.jpg".

(** [f"Video {video_id}"] *)
Definition fallback_title (video_id : string) : string :=
  "Video " +:+ video_id.

Section Handlers.
Context (w : world).

(** *** [/api/transcript] *)

(** Lines 57-68: the captions of the video, flattened. *)
Definition fetch_full_text (video_id : string) : M string :=
  transcript_list ← list_transcripts w video_id;
  transcript ←
    try_except (lift (find_transcript transcript_list ["en"]))
               (λ _, lift (find_transcript transcript_list []));
  transcript_parts ← fetch transcript;
  mret (Str.join " " (seg_text <$> transcript_parts)).

(** Lines 69-88: the [except] clauses, each of which returns. *)
Definition transcript_failure (e : exn) : response :=
  match e with
  | TranscriptsDisabled _ =>
      error_response 404 "Transcripts are disabled for this video"
  | NoTranscriptFound _ =>
      error_response 404 "No transcript found for this video"
  | VideoUnavailable _ =>
      error_response 404 "The video is unavailable"
  | OtherException _ =>
      error_response 500 ("Error fetching transcript: " +:+ exn_str e)
  end.

(** Lines 93-101 *)
Definition video_details_of (info : gmap string scalar) : pyval :=
  PDict {[ "title" := of_scalar (dict_get info "title" (SStr "Unknown Title"));
           "thumbnail" := of_scalar (dict_get info "thumbnail" (SStr ""));
           "duration" := PStr (py_str (dict_get info "duration" (SInt 0)));
           "views" := PStr (py_str (dict_get info "view_count" (SInt 0)));
           "upload_date" := of_scalar (dict_get info "upload_date" (SStr ""));
           "channel" := of_scalar (dict_get info "channel" (SStr ""));
           "likes" := PStr (py_str (dict_get info "like_count" (SInt 0))) ]}.

(** Lines 104-112 *)
Definition fallback_details (video_id : string) : pyval :=
  PDict {[ "title" := PStr (fallback_title video_id);
           "thumbnail" := PStr (thumbnail_url video_id);
           "duration" := PStr "Unknown";
           "views" := PStr "Unknown";
           "upload_date" := PStr "Unknown";
           "channel" := PStr "Unknown";
           "likes" := PStr "Unknown" ]}.

(** Lines 91-112 *)
Definition fetch_video_details (url video_id : string) : M pyval :=
  try_except (info ← download_info w url; mret (video_details_of info))
             (λ _, mret (fallback_details video_id)).

(** [not full_text or full_text.strip() == ''] *)
Definition blank (full_text : string) : bool :=
  negb (truthy (PStr full_text)) || String.eqb (Str.strip full_text) "".

(** The body of the outer [try] (lines 56-125).  A [return] inside the
    inner [try] is the [inl] of its result. *)
Definition transcript_body (url video_id : string) : M response :=
  r ← try_except (full_text ← fetch_full_text video_id; mret (inr full_text))
                 (λ e, mret (inl (transcript_failure e)));
  match r with
  | inl early => mret early
  | inr full_text =>
      video_details ← fetch_video_details url video_id;
      if blank full_text then
        mret (Response 404 {[ "success" := PBool false;
                              "error" := PStr "Transcript is empty";
                              "video" := video_details ]})
      else
        mret (jsonify {[ "success" := PBool true;
                         "video" := video_details;
                         "transcript" := PStr full_text ]})
  end.

(** [url] is [request.args.get('url')]. *)
Definition get_transcript (url : option string) : M response :=
  match url with
  | None | Some EmptyString => mret missing_url
  | Some url =>
      match extract_video_id url with
      | None | Some EmptyString => mret invalid_url
      | Some video_id =>
          try_except (transcript_body url video_id)
                     (λ e, mret (error_response 500 (exn_str e)))
      end
  end.

(** *** [/api/video-info] *)

Definition get_video_info (url : option string) : M response :=
  match url with
  | None | Some EmptyString => mret missing_url
  | Some url =>
      try_except
        (info ← download_info w url;
         mret (jsonify
           {[ "success" := PBool true;
              "video_id" := of_scalar (dict_get info "id" SNone);
              "title" := of_scalar (dict_get info "title" SNone);
              "thumbnail" := of_scalar (dict_get info "thumbnail" SNone);
              "duration" := of_scalar (dict_get info "duration" SNone);
              "channel" := of_scalar (dict_get info "channel" SNone);
              "upload_date" := of_scalar (dict_get info "upload_date" SNone) ]}))
        (λ e, mret (error_response 500 (exn_str e)))
  end.

(** *** [/api/video-data] *)

(** Lines 192-201 *)
Definition video_info_of (info : gmap string scalar) : pyval :=
  PDict {[ "title" := of_scalar (dict_get info "title" SNone);
           "thumbnail" := of_scalar (dict_get info "thumbnail" SNone);
           "duration" := of_scalar (dict_get info "duration" SNone);
           "views" := of_scalar (dict_get info "view_count" SNone);
           "upload_date" := of_scalar (dict_get info "upload_date" SNone);
           "channel" := of_scalar (dict_get info "channel" SNone);
           "likes" := of_scalar (dict_get info "like_count" SNone);
           "description" := of_scalar (dict_get info "description" SNone) ]}.

(** Lines 206-209 *)
Definition minimal_video_info (video_id : string) : pyval :=
  PDict {[ "title" := PStr (fallback_title video_id);
           "thumbnail" := PStr (thumbnail_url video_id) ]}.

(** Lines 190-209: [result] is the dict as the step finds it. *)
Definition fill_video_info (url video_id : string)
  (result : gmap string pyval) : M (gmap string pyval) :=
  try_except
    (info ← download_info w url;
     mret (<["video_info" := video_info_of info]> result))
    (λ e,
       let result := <["success" := PBool false]> result in
       let result :=
         <["video_info_error" :=
             PStr ("Error fetching video info: " +:+ exn_str e)]> result in
       mret (<["video_info" := minimal_video_info video_id]> result)).

(** Line 217: one line of the plain text version. *)
Definition transcript_line (item : segment) : string :=
  format_2f (seg_start item) +:+ " - "
    +:+ format_2f (seg_start item + seg_duration item)%float +:+ ": "
    +:+ seg_text item.

Definition plain_text_of (transcript_data : list segment) : string :=
  Str.join (String Re.newline "") (transcript_line <$> transcript_data).

(** Lines 221-228 *)
Definition transcript_error_of (e : exn) : string :=
  match e with
  | TranscriptsDisabled _ => "Transcripts are disabled for this video"
  | NoTranscriptFound _ =>
      "No transcript found for this video in any supported language"
  | VideoUnavailable _ => "The video is unavailable"
  | OtherException _ => "Error fetching transcript: " +:+ exn_str e
  end.

(** Lines 212-228 *)
Definition fill_transcript (video_id : string)
  (result : gmap string pyval) : M (gmap string pyval) :=
  try_except
    (transcript_data ← api_get_transcript w video_id ALL_LANGUAGES;
     let result :=
       <["transcript" := PList (segment_json <$> transcript_data)]> result in
     mret (<["transcript_text" := PStr (plain_text_of transcript_data)]> result))
    (λ e, mret (<["transcript_error" := PStr (transcript_error_of e)]> result)).

(** Lines 231-233.  [k in result] is [bool_decide (is_Some (result !! k))]. *)
Definition mark_overall_failure (result : gmap string pyval)
  : M (gmap string pyval) :=
  video_info ← getitem result "video_info";
  if (negb (truthy video_info)
      || bool_decide (is_Some (result !! "video_info_error")))
     && bool_decide (is_Some (result !! "transcript_error"))
  then
    let result := <["success" := PBool false]> result in
    mret (<["error" :=
             PStr "Failed to retrieve both video information and transcript"]>
            result)
  else mret result.

Definition get_video_data (url : option string) : M response :=
  match url with
  | None | Some EmptyString => mret missing_url
  | Some url =>
      match extract_video_id url with
      | None | Some EmptyString => mret invalid_url
      | Some video_id =>
          let result : gmap string pyval :=
            {[ "success" := PBool true;
               "video_id" := PStr video_id;
               "video_info" := PNone;
               "transcript" := PNone;
               "transcript_error" := PNone ]} in
          result ← fill_video_info url video_id result;
          result ← fill_transcript video_id result;
          result ← mark_overall_failure result;
          mret (jsonify result)
      end
  end.

End Handlers.
End App.

(** ** Service A: [src/api/index.py] *)

Module Index.

Definition actor_name : string :=
  "fastcrawler/youtube-transcript-extractor-video-text-3-1k-pay-per-result".

Section Handlers.
Context (w : world).

(** [request_json] is what [request.get_json()] does on line 14: [inr data]
    when it returns the parsed body (any JSON value, [None] for [null]),
    [inl e] when it aborts the request instead (no JSON content type, or a
    body that is not JSON).  Lines 14 to 16 are outside the [try]. *)
Definition get_transcript (request_json : exn + pyval) : M response :=
  data ← lift request_json;
  missing ←
    (if negb (truthy data) then mret true
     else found ← contains data "url"; mret (negb found));
  if (missing : bool)
  then mret (Response 400 {[ "error" := PStr "Missing YouTube video URL" ]})
  else
    try_except
      (video_url ← subscript data "url";
       let run_input := PDict {[ "urls" := PList [video_url] ]} in
       run ← perform (CallActor run_input) (actor_call_of w run_input);
       dataset_id ← subscript run "defaultDatasetId";
       results ← perform (CallDataset dataset_id)
                         (dataset_items_of w dataset_id);
       mret (jsonify {[ "dataset_id" := dataset_id;
                        "transcript" := PList results ]}))
      (λ e, mret (Response 500 {[ "error" := PStr (exn_str e) ]})).

End Handlers.
End Index.

(** * What the properties are stated with *)

(** ** Which prefixes of a string a regular expression matches *)

Module ReSem.

(** [matches r s g s' g']: [r] reads a prefix of [s], leaving [s'], and
    turns the groups [g] into [g'].  The relation has every way to match;
    [Re.run] picks among them by priority. *)
Inductive matches : regex → string → groups → string → groups → Prop :=
| m_lit l s g :
    matches (Lit l) (l +:+ s) g s g
| m_seq r1 r2 s g s1 g1 s2 g2 :
    matches r1 s g s1 g1 → matches r2 s1 g1 s2 g2 →
    matches (Seq r1 r2) s g s2 g2
| m_alt_l r1 r2 s g s' g' :
    matches r1 s g s' g' → matches (Alt r1 r2) s g s' g'
| m_alt_r r1 r2 s g s' g' :
    matches r2 s g s' g' → matches (Alt r1 r2) s g s' g'
| m_opt_some r s g s' g' :
    matches r s g s' g' → matches (Opt r) s g s' g'
| m_opt_none r s g :
    matches (Opt r) s g s g
| m_plus c p s g :
    p ≠ "" → Str.all (accepts c) p = true →
    matches (Plus c) (p +:+ s) g s g
| m_rep n c p s g :
    String.length p = n → Str.all (accepts c) p = true →
    matches (Rep n c) (p +:+ s) g s g
| m_group i r s g s' g' :
    matches r s g s' g' →
    matches (Group i r) s g s' (<[i := Str.consumed s s']> g').

End ReSem.

(** ** The URL shapes of the specification *)

Definition schemes : list string := [""; "http://"; "https://"].
Definition wwws : list string := [""; "www."].
Definition hosts : list string := ["youtube"; "youtu"; "youtube-nocookie"].
Definition tlds : list string := ["com"; "be"].
Definition literal_markers : list string := ["watch?v="; "embed/"; "v/"].

(** [scheme][www.]host.tld/ *)
Definition base_url (scheme www host tld : string) : string :=
  scheme +:+ www +:+ host +:+ "." +:+ tld +:+ "/".

(** The alphabet of the identifiers YouTube gives its videos: letters,
    digits, [-] and [_].  This is not in the source, which only excludes
    four characters ([id_class]). *)
Definition video_id_char (c : ascii) : bool :=
  let n := nat_of_ascii c in
  (Nat.leb 48 n && Nat.leb n 57) || (Nat.leb 65 n && Nat.leb n 90)
  || (Nat.leb 97 n && Nat.leb n 122) || Nat.eqb n 45 || Nat.eqb n 95.

Definition valid_video_id (id : string) : bool :=
  Nat.eqb (String.length id) 11 && Str.all video_id_char id.

(** The accepted URL shapes built from the identifier [id].  In the last
    two, nothing after the identifier may look like a [?v=] query, which
    the greedy [.+\?v=] would prefer; in the last, the path is on one line
    and does not itself begin with one of the literal markers. *)
Inductive url_of (id : string) : string → Prop :=
| url_marker scheme www host tld marker tail :
    scheme ∈ schemes → www ∈ wwws → host ∈ hosts → tld ∈ tlds →
    marker ∈ literal_markers →
    url_of id (base_url scheme www host tld +:+ marker +:+ id +:+ tail)
| url_short scheme www host tld tail :
    scheme ∈ schemes → www ∈ wwws → host ∈ hosts → tld ∈ tlds →
    Str.occurs "?v=" tail = false →
    url_of id (base_url scheme www host tld +:+ id +:+ tail)
| url_query scheme www host tld path tail :
    scheme ∈ schemes → www ∈ wwws → host ∈ hosts → tld ∈ tlds →
    path ≠ "" →
    Str.all (accepts CAny) path = true →
    (∀ marker, marker ∈ literal_markers → Str.strip_prefix marker path = None) →
    Str.occurs "?v=" tail = false →
    url_of id (base_url scheme www host tld +:+ path +:+ "?v=" +:+ id +:+ tail).

(** ** The sixth group of a match *)

(** The match succeeded and its sixth group is [id]. *)
Definition yields (o : option groups) (id : string) : Prop :=
  ∃ m, o = Some m ∧ m !! 6 = Some id.

(** ** The dict of [/api/video-data], step by step *)

Section VideoDataSteps.
Context (w : world).

(** The dict [get_video_data] starts from. *)
Definition initial_result (id : string) : gmap string pyval :=
  {[ "success" := PBool true;
     "video_id" := PStr id;
     "video_info" := PNone;
     "transcript" := PNone;
     "transcript_error" := PNone ]}.

(** The dict after the metadata step. *)
Definition with_video_info (url id : string) (result : gmap string pyval)
  : gmap string pyval :=
  match extract_info_of w url with
  | inr info => <["video_info" := App.video_info_of info]> result
  | inl e =>
      <["video_info" := App.minimal_video_info id]>
        (<["video_info_error" :=
             PStr ("Error fetching video info: " +:+ exn_str e)]>
           (<["success" := PBool false]> result))
  end.

(** The dict after the captions step. *)
Definition with_transcript (id : string) (result : gmap string pyval)
  : gmap string pyval :=
  match outcome (api_get_transcript w id App.ALL_LANGUAGES) with
  | inr transcript_data =>
      <["transcript_text" := PStr (App.plain_text_of transcript_data)]>
        (<["transcript" := PList (segment_json <$> transcript_data)]> result)
  | inl e => <["transcript_error" := PStr (App.transcript_error_of e)]> result
  end.

(** The dict [get_video_data] answers with. *)
Definition final_result (url id : string) : gmap string pyval :=
  let result := with_transcript id (with_video_info url id (initial_result id)) in
  match extract_info_of w url with
  | inr _ => result
  | inl _ =>
      <["error" :=
          PStr "Failed to retrieve both video information and transcript"]>
        (<["success" := PBool false]> result)
  end.

End VideoDataSteps.

(** ** Sample requests and providers *)

Definition sample_id : string := "dQw4w9WgXcQ".
Definition sample_url : string := "https://www.youtube.com/watch?v=dQw4w9WgXcQ".

(** The transcript of the specification's example. *)
Definition sample_segments : list segment :=
  [Segment "a" 0.0 5.28; Segment "b" 5.28 3.42].

(** A video with an English transcript only, with a German one only, and
    with an English one that has a single caption of spaces. *)
Definition english_only : transcript_list :=
  TranscriptList sample_id {[ "en" := Transcript "en" (inr sample_segments) ]} ∅.
Definition german_only : transcript_list :=
  TranscriptList sample_id {[ "de" := Transcript "de" (inr sample_segments) ]} ∅.
Definition silent_english : transcript_list :=
  TranscriptList sample_id
    {[ "en" := Transcript "en" (inr [Segment "  " 0.0 1.5]) ]} ∅.

Definition sample_info : gmap string scalar :=
  {[ "id" := SStr sample_id;
     "title" := SStr "Never Gonna Give You Up";
     "duration" := SInt 212 ]}.

(** Providers that answer every request alike. *)
Definition world_of (captions : exn + transcript_list)
  (metadata : exn + gmap string scalar) : world :=
  World (λ _, captions) (λ _, metadata)
        (λ _, inl (OtherException "actor run failed")) (λ _, inr []).

(** The extractor is down, the captions are there. *)
Definition metadata_down : world :=
  world_of (inr english_only) (inl (OtherException "Video unavailable")).

(** A video with an Afrikaans transcript and a generated English one, and
    a video whose only transcript has a regional code. *)
Definition afrikaans_segments : list segment := [Segment "hallo" 0.0 1.0].
Definition auto_english : transcript_list :=
  TranscriptList sample_id
    {[ "af" := Transcript "af" (inr afrikaans_segments) ]}
    {[ "en" := Transcript "en" (inr sample_segments) ]}.
Definition regional_only : transcript_list :=
  TranscriptList sample_id
    {[ "en-US" := Transcript "en-US" (inr sample_segments) ]} ∅.

(** An actor run and a dataset that answer every request alike. *)
Definition apify_world (run : exn + pyval) (items : exn + list pyval) : world :=
  World (λ _, inl (VideoUnavailable "not asked"))
        (λ _, inl (OtherException "not asked"))
        (λ _, run) (λ _, items).


(** The calls that go to Apify. *)
Definition is_apify_call (c : call) : bool :=
  match c with
  | CallActor _ | CallDataset _ => true
  | _ => false
  end.

(** ** Tactics *)

(** Takes apart a hypothesis on how a compound expression matched. *)
Ltac inv_matches :=
  repeat match goal with
    | H : ReSem.matches (Lit _) _ _ _ _ |- _ => inv H
    | H : ReSem.matches (Seq _ _) _ _ _ _ |- _ => inv H
    | H : ReSem.matches (Alt _ _) _ _ _ _ |- _ => inv H
    | H : ReSem.matches (Opt _) _ _ _ _ |- _ => inv H
    | H : ReSem.matches (Group _ _) _ _ _ _ |- _ => inv H
    end.

(** Splits [x ∈ [a; b; ...]] into its cases. *)
Ltac cases_of H :=
  repeat (apply elem_of_cons in H as [->|H]); try (by apply elem_of_nil in H).

(** Unfolds the combinators of [M] down to pairs and sums. *)
Ltac unfold_m :=
  unfold outcome, calls, mbind, M_bind, bind, mret, M_ret, ret, try_except,
    perform, lift, raise in *.

(** Refutes [x ∈ [a; b; ...]] when [x] differs from each by its
    constructor. *)
Ltac refute_elem H :=
  repeat (apply elem_of_cons in H as [H|H]; [discriminate H|]);
  by apply elem_of_nil in H.

(** * Properties *)

(** ** Strings *)

Module StrFacts.
Import Str.

Lemma app_String a s1 s2 : String a s1 +:+ s2 = String a (s1 +:+ s2).
Proof. reflexivity. Qed.

Lemma app_Empty s : "" +:+ s = s.
Proof. reflexivity. Qed.

Lemma app_assoc s1 s2 s3 : (s1 +:+ s2) +:+ s3 = s1 +:+ s2 +:+ s3.
Proof. induction s1 as [|a s1 IH]; [done|]. by rewrite !app_String, IH. Qed.

Lemma length_app s1 s2 :
  String.length (s1 +:+ s2) = String.length s1 + String.length s2.
Proof. induction s1 as [|a s1 IH]; [done|]. rewrite app_String. simpl. lia. Qed.

Lemma strip_prefix_app l s : strip_prefix l (l +:+ s) = Some s.
Proof.
  induction l as [|a l IH]; [done|].
  rewrite app_String. simpl. by rewrite Ascii.eqb_refl.
Qed.

Lemma strip_prefix_Some l s s' : strip_prefix l s = Some s' → s = l +:+ s'.
Proof.
  revert s. induction l as [|a l IH]; intros s H; simpl in H.
  - by inversion H.
  - destruct s as [|b s]; [done|].
    destruct (Ascii.eqb_spec a b) as [->|]; [|done].
    rewrite app_String. f_equal. by apply IH.
Qed.

Lemma take_app p s : take (String.length p) (p +:+ s) = p.
Proof.
  induction p as [|a p IH].
  - by destruct s.
  - rewrite app_String. simpl. by rewrite IH.
Qed.

Lemma consumed_app p s : consumed (p +:+ s) s = p.
Proof.
  unfold consumed. rewrite length_app.
  replace (String.length p + String.length s - String.length s)
    with (String.length p) by lia.
  apply take_app.
Qed.

Lemma all_app p s1 s2 : all p (s1 +:+ s2) = all p s1 && all p s2.
Proof.
  induction s1 as [|a s1 IH]; [done|].
  rewrite app_String. simpl. rewrite IH. by rewrite andb_assoc.
Qed.

Lemma all_impl (p q : ascii → bool) s :
  (∀ a, p a = true → q a = true) → all p s = true → all q s = true.
Proof.
  intros Hpq. induction s as [|a s IH]; [done|]. simpl.
  intros [Ha Hs]%andb_prop. rewrite (Hpq _ Ha). simpl. auto.
Qed.

(** A literal that starts with a character the string has none of does not
    occur in it. *)
Lemma occurs_absent_head a l s tail :
  all (λ b, negb (Ascii.eqb a b)) s = true →
  occurs (String a l) tail = false →
  occurs (String a l) (s +:+ tail) = false.
Proof.
  intros Hs Htail. induction s as [|b s IH]; [done|].
  simpl in Hs. apply andb_prop in Hs as [Hb Hs].
  rewrite app_String. simpl.
  destruct (Ascii.eqb a b); [done|]. by apply IH.
Qed.

Lemma occurs_false_tail l a s :
  occurs l (String a s) = false → occurs l s = false.
Proof.
  simpl. destruct l as [|b l]; [done|].
  simpl. destruct s; by repeat case_match.
Qed.

Lemma occurs_false_head l s : occurs l s = false → strip_prefix l s = None.
Proof. destruct s; simpl; by repeat case_match. Qed.

End StrFacts.

(** ** The matcher *)

Module ReFacts.
Import Str StrFacts ReSem.

Section Sound.
Context {A : Type}.
Implicit Types (k : string → groups → option A) (x : A).

Lemma run_plus_sound c s g k x :
  run_plus c s g k = Some x →
  ∃ p s', s = p +:+ s' ∧ p ≠ "" ∧ all (accepts c) p = true
          ∧ k s' g = Some x.
Proof.
  induction s as [|a s IH]; simpl; [done|].
  destruct (accepts c a) eqn:Ha; [|done].
  destruct (run_plus c s g k) as [y|] eqn:Hrec.
  - intros [= ->]. destruct (IH eq_refl) as (p & s' & -> & _ & Hp & Hk).
    exists (String a p), s'. rewrite app_String. simpl. by rewrite Ha, Hp.
  - intros Hk. exists (String a ""), s. simpl. by rewrite Ha.
Qed.

Lemma run_rep_sound n c s g k x :
  run_rep n c s g k = Some x →
  ∃ p s', s = p +:+ s' ∧ String.length p = n ∧ all (accepts c) p = true
          ∧ k s' g = Some x.
Proof.
  revert s. induction n as [|n IH]; intros s; simpl.
  - intros Hk. by exists "", s.
  - destruct s as [|a s]; [done|].
    destruct (accepts c a) eqn:Ha; [|done].
    intros (p & s' & -> & <- & Hp & Hk)%IH.
    exists (String a p), s'. rewrite app_String. simpl. by rewrite Ha, Hp.
Qed.

(** Whatever the matcher returns comes from a way to match. *)
Lemma run_sound r s g k x :
  run r s g k = Some x →
  ∃ s' g', matches r s g s' g' ∧ k s' g' = Some x.
Proof.
  revert s g k.
  induction r as [l|r1 IH1 r2 IH2|r1 IH1 r2 IH2|r IH|c|n c|i r IH];
    intros s g k; simpl.
  - destruct (strip_prefix l s) as [s'|] eqn:Hl; [|done].
    apply strip_prefix_Some in Hl as ->. intros Hk.
    exists s', g. split; [constructor|done].
  - intros (s1 & g1 & H1 & (s2 & g2 & H2 & Hk)%IH2)%IH1.
    exists s2, g2. split; [by econstructor|done].
  - destruct (run r1 s g k) as [y|] eqn:H1.
    + intros [= ->]. apply IH1 in H1 as (s' & g' & ? & ?).
      exists s', g'. split; [by apply m_alt_l|done].
    + intros (s' & g' & ? & ?)%IH2.
      exists s', g'. split; [by apply m_alt_r|done].
  - destruct (run r s g k) as [y|] eqn:H1.
    + intros [= ->]. apply IH in H1 as (s' & g' & ? & ?).
      exists s', g'. split; [by apply m_opt_some|done].
    + intros Hk. exists s, g. split; [apply m_opt_none|done].
  - intros (p & s' & -> & ? & ? & ?)%run_plus_sound.
    exists s', g. split; [by constructor|done].
  - intros (p & s' & -> & ? & ? & ?)%run_rep_sound.
    exists s', g. split; [by constructor|done].
  - intros (s' & g' & ? & ?)%IH.
    exists s', (<[i := consumed s s']> g'). split; [by constructor|done].
Qed.
End Sound.

(** Every way to match reads a prefix. *)
Lemma matches_prefix r s g s' g' :
  matches r s g s' g' → ∃ p, s = p +:+ s'.
Proof.
  induction 1 as [l s g| r1 r2 s g s1 g1 s2 g2 _ [p1 ->] _ [p2 ->]
                 | | | | | | |]; eauto.
  - exists (p1 +:+ p2). by rewrite app_assoc.
  - by exists "".
Qed.

End ReFacts.

(** ** [extract_video_id]: what a result looks like *)

Module ExtractShape.
Import Str StrFacts ReSem ReFacts.

Lemma matches_scheme s g s' g' :
  matches re_scheme s g s' g' → ∃ p, p ∈ schemes ∧ s = p +:+ s'.
Proof.
  unfold re_scheme, schemes. intros H. inv_matches.
  - exists "https://". split; [set_solver|done].
  - exists "http://". split; [set_solver|done].
  - exists "". split; [set_solver|done].
Qed.

Lemma matches_www s g s' g' :
  matches re_www s g s' g' → ∃ p, p ∈ wwws ∧ s = p +:+ s'.
Proof.
  unfold re_www, wwws. intros H. inv_matches.
  - exists "www.". split; [set_solver|done].
  - exists "". split; [set_solver|done].
Qed.

Lemma matches_host s g s' g' :
  matches re_host s g s' g' → ∃ p, p ∈ hosts ∧ s = p +:+ s'.
Proof.
  unfold re_host, hosts. intros H. inv_matches.
  - exists "youtube". split; [set_solver|done].
  - exists "youtu". split; [set_solver|done].
  - exists "youtube-nocookie". split; [set_solver|done].
Qed.

Lemma matches_tld s g s' g' :
  matches re_tld s g s' g' → ∃ p, p ∈ tlds ∧ s = p +:+ s'.
Proof.
  unfold re_tld, tlds. intros H. inv_matches.
  - exists "com". split; [set_solver|done].
  - exists "be". split; [set_solver|done].
Qed.

Lemma matches_id s g s' g' :
  matches re_id s g s' g' →
  ∃ id, s = id +:+ s' ∧ String.length id = 11
        ∧ all (accepts id_class) id = true ∧ g' !! 6 = Some id.
Proof.
  unfold re_id. intros H. inv_matches.
  match goal with H : matches (Rep _ _) _ _ _ _ |- _ => inv H end.
  eexists. split; [done|]. split; [done|]. split; [done|].
  by rewrite consumed_app, lookup_insert_eq.
Qed.

(** The groups of a match, read off the way the pattern matched. *)
Lemma matches_youtube_regex url g s' m :
  matches youtube_regex url g s' m →
  ∃ scheme www host tld marker id,
    scheme ∈ schemes ∧ www ∈ wwws ∧ host ∈ hosts ∧ tld ∈ tlds
    ∧ url = base_url scheme www host tld +:+ marker +:+ id +:+ s'
    ∧ String.length id = 11 ∧ all (accepts id_class) id = true
    ∧ m !! 6 = Some id.
Proof.
  unfold youtube_regex, re_path. intros H.
  repeat match goal with
    | H : matches (Seq _ _) _ _ _ _ |- _ => inv H
    end.
  repeat match goal with
    | H : matches re_scheme _ _ _ _ |- _ =>
        apply matches_scheme in H as (scheme & ? & ->)
    | H : matches re_www _ _ _ _ |- _ =>
        apply matches_www in H as (www & ? & ->)
    | H : matches re_host _ _ _ _ |- _ =>
        apply matches_host in H as (host & ? & ->)
    | H : matches re_tld _ _ _ _ |- _ =>
        apply matches_tld in H as (tld & ? & ->)
    | H : matches re_marker _ _ _ _ |- _ =>
        apply matches_prefix in H as (marker & ->)
    | H : matches re_id _ _ _ _ |- _ =>
        apply matches_id in H as (id & -> & ? & ? & ?)
    | H : matches (Lit _) _ _ _ _ |- _ => inv H
    end.
  exists scheme, www, host, tld, marker, id.
  unfold base_url. by rewrite !app_assoc.
Qed.

Lemma extract_video_id_Some url id :
  extract_video_id url = Some id →
  String.length id = 11 ∧ all (accepts id_class) id = true
  ∧ ∃ scheme www host tld marker tail,
      scheme ∈ schemes ∧ www ∈ wwws ∧ host ∈ hosts ∧ tld ∈ tlds
      ∧ url = base_url scheme www host tld +:+ marker +:+ id +:+ tail.
Proof.
  unfold extract_video_id, re_match.
  destruct (run youtube_regex url ∅ _) as [m|] eqn:Hrun; [|done].
  intros Hid.
  apply run_sound in Hrun as (s' & g' & Hm & [= ->]).
  apply matches_youtube_regex in Hm
    as (scheme & www & host & tld & marker & id' & ? & ? & ? & ? & -> & ? & ? & Hid').
  rewrite Hid in Hid'. injection Hid' as <-.
  split; [done|]. split; [done|].
  by exists scheme, www, host, tld, marker, s'.
Qed.

(** The identifier is never empty, so [not video_id] holds for [None]
    only. *)
Lemma extract_video_id_nonempty url : extract_video_id url ≠ Some "".
Proof. by intros [? _]%extract_video_id_Some. Qed.

(** A first character that starts no scheme, no [www.] and no host. *)
Lemma extract_video_id_first_char c url :
  c ∉ ["h"; "w"; "y"]%char → extract_video_id (String c url) = None.
Proof.
  intros Hc. destruct (extract_video_id (String c url)) as [id|] eqn:H; [|done].
  apply extract_video_id_Some in H
    as (_ & _ & scheme & www & host & tld & marker & tail
        & Hs & Hw & Hh & _ & Hurl).
  exfalso. apply Hc. unfold base_url, schemes, wwws, hosts in *.
  repeat (apply elem_of_cons in Hs as [->|Hs]; [|try by apply elem_of_nil in Hs]);
  repeat (apply elem_of_cons in Hw as [->|Hw]; [|try by apply elem_of_nil in Hw]);
  repeat (apply elem_of_cons in Hh as [->|Hh]; [|try by apply elem_of_nil in Hh]);
  rewrite ?app_String, ?app_Empty in Hurl; injection Hurl as -> _; set_solver.
Qed.

End ExtractShape.

(** ** [extract_video_id]: which URLs give which identifier *)

Module ExtractShapes.
Import Str StrFacts.

Implicit Types (k : string → groups → option groups).

Lemma run_rep_app {A} n c p s g (k : string → groups → option A) :
  String.length p = n → all (accepts c) p = true →
  run_rep n c (p +:+ s) g k = k s g.
Proof.
  revert n. induction p as [|a p IH]; intros n <-; [done|].
  rewrite app_String. simpl. intros [-> Hp]%andb_prop. by apply IH.
Qed.

Lemma run_id {A} id tail g (k : string → groups → option A) :
  String.length id = 11 → all (accepts id_class) id = true →
  run re_id (id +:+ tail) g k = k tail (<[6 := id]> g).
Proof.
  intros Hlen Hid. unfold re_id. cbn [run].
  rewrite run_rep_app by done. by rewrite consumed_app.
Qed.

(** Greedy [c+]: when no longer run leads to a match, the run [p] does. *)
Lemma run_plus_reach {A} c p s g (k : string → groups → option A) x :
  p ≠ "" → all (accepts c) p = true →
  run_plus c s g k = None → k s g = Some x →
  run_plus c (p +:+ s) g k = Some x.
Proof.
  intros Hne Hp Hlonger Hk. induction p as [|a p IH]; [done|].
  rewrite app_String. simpl in *. apply andb_prop in Hp as [-> Hp].
  destruct p as [|b p].
  - by rewrite app_Empty, Hlonger.
  - by rewrite IH.
Qed.

(** [c+] followed by a literal that occurs nowhere after the first
    character. *)
Lemma run_plus_no_occurrence {A} c l a s g (k : string → groups → option A) :
  occurs l s = false →
  run_plus c (String a s) g
    (λ s' g', match strip_prefix l s' with
              | Some s'' => k s'' g'
              | None => None
              end) = None.
Proof.
  revert a. induction s as [|b s IH]; intros a Hocc; simpl.
  - apply occurs_false_head in Hocc. rewrite Hocc.
    by destruct (accepts c a).
  - destruct (accepts c a); [|done].
    pose proof (occurs_false_tail _ _ _ Hocc) as Hs.
    specialize (IH b Hs). simpl in IH. rewrite IH.
    apply occurs_false_head in Hocc. by rewrite Hocc.
Qed.

(** A literal with the character [a] at a place where the string [p] goes
    on and has no [a]. *)
Lemma strip_prefix_blocked l1 a l2 p tail :
  all (λ b, negb (Ascii.eqb a b)) p = true →
  String.length l1 < String.length p →
  strip_prefix (l1 +:+ String a l2) (p +:+ tail) = None.
Proof.
  revert p. induction l1 as [|c l1 IH]; intros [|b p] Hp Hlen;
    simpl in Hlen; try lia; simpl in Hp; apply andb_prop in Hp as [Hb Hp].
  - change (strip_prefix (String a l2) (String b (p +:+ tail)) = None).
    simpl. by destruct (Ascii.eqb a b).
  - change (strip_prefix (String c (l1 +:+ String a l2))
                         (String b (p +:+ tail)) = None).
    simpl. destruct (Ascii.eqb c b); [|done]. apply IH; [done|lia].
Qed.

(** A literal that matches at the head of [p +:+ String a q] but not within
    [p] starts with [p] and goes on with [a]. *)
Lemma strip_prefix_beyond l p a q r :
  strip_prefix l (p +:+ String a q) = Some r →
  strip_prefix l p = None →
  p = take (String.length p) l ∧ String.get (String.length p) l = Some a.
Proof.
  revert p. induction l as [|c l IH]; intros p; simpl; [done|].
  destruct p as [|b p].
  - rewrite app_Empty. destruct (Ascii.eqb_spec c a) as [->|]; done.
  - rewrite app_String. destruct (Ascii.eqb_spec c b) as [->|]; [|done].
    intros H1 H2. destruct (IH _ H1 H2) as [Hp Hget]. simpl.
    by rewrite <- Hp.
Qed.

Lemma valid_video_id_char c :
  video_id_char c = true →
  accepts id_class c = true ∧ negb (Ascii.eqb "/" c) = true
  ∧ negb (Ascii.eqb "?" c) = true.
Proof. destruct c as [[] [] [] [] [] [] [] []]; by vm_compute. Qed.

Lemma valid_video_id_facts id :
  valid_video_id id = true →
  String.length id = 11 ∧ all (accepts id_class) id = true
  ∧ all (λ b, negb (Ascii.eqb "/" b)) id = true
  ∧ all (λ b, negb (Ascii.eqb "?" b)) id = true.
Proof.
  unfold valid_video_id. intros [Hlen Hall]%andb_prop.
  apply Nat.eqb_eq in Hlen. split; [done|].
  repeat split; eapply all_impl; try exact Hall;
    intros a Ha; by apply valid_video_id_char in Ha as (? & ? & ?).
Qed.

(** The part of the pattern before the path: whatever follows it, [r],
    decides the match. *)
Lemma run_base r scheme www host tld s g k id :
  scheme ∈ schemes → www ∈ wwws → host ∈ hosts → tld ∈ tlds →
  (∀ g', yields (run r s g' k) id) →
  yields (run (Seq re_scheme (Seq re_www (Seq re_host (Seq (Lit ".")
                (Seq re_tld (Seq (Lit "/") r))))))
              (base_url scheme www host tld +:+ s) g k) id.
Proof.
  unfold schemes, wwws, hosts, tlds, base_url.
  intros Hs Hw Hh Ht Hr.
  cases_of Hs; cases_of Hw; cases_of Hh; cases_of Ht;
    rewrite ?app_assoc, ?app_String, ?app_Empty; simpl;
    match goal with
    | |- context [run r s ?g' k] => destruct (Hr g') as (m & -> & ?)
    end; by exists m.
Qed.

Lemma run_marker_literal marker s g k id :
  marker ∈ literal_markers →
  (∀ g', yields (k s g') id) →
  yields (run re_marker (marker +:+ s) g k) id.
Proof.
  unfold literal_markers. intros Hm Hk.
  cases_of Hm; rewrite ?app_String, ?app_Empty; simpl;
    match goal with
    | |- context [k s ?g'] => destruct (Hk g') as (m & -> & ?)
    end; by exists m.
Qed.

(** No marker: the identifier comes right after the slash. *)
Lemma run_marker_short id tail g k id' :
  String.length id = 11 →
  all (λ b, negb (Ascii.eqb "/" b)) id = true →
  all (λ b, negb (Ascii.eqb "?" b)) id = true →
  occurs "?v=" tail = false →
  (∀ g', yields (k (id +:+ tail) g') id') →
  yields (run re_marker (id +:+ tail) g k) id'.
Proof.
  intros Hlen Hslash Hquery Htail Hk. unfold re_marker. cbn [run].
  rewrite (strip_prefix_blocked "watch" "?" "v=") by (done || simpl; lia).
  rewrite (strip_prefix_blocked "embed" "/" "") by (done || simpl; lia).
  rewrite (strip_prefix_blocked "v" "/" "") by (done || simpl; lia).
  assert (occurs "?v=" (id +:+ tail) = false) as Hocc
    by by apply occurs_absent_head.
  destruct (id +:+ tail) as [|a s] eqn:Hs.
  - apply Hk.
  - rewrite run_plus_no_occurrence by by eapply occurs_false_tail.
    apply Hk.
Qed.

(** Any path in front of [?v=]. *)
Lemma run_marker_query path id tail g k id' :
  path ≠ "" →
  all (accepts CAny) path = true →
  (∀ marker, marker ∈ literal_markers → strip_prefix marker path = None) →
  all (λ b, negb (Ascii.eqb "?" b)) id = true →
  occurs "?v=" tail = false →
  (∀ g', yields (k (id +:+ tail) g') id') →
  yields (run re_marker (path +:+ "?v=" +:+ id +:+ tail) g k) id'.
Proof.
  intros Hne Hline Hmarkers Hquery Htail Hk.
  destruct (decide (path = "watch")) as [->|Hwatch].
  { apply (run_marker_literal "watch?v="); [set_solver|done]. }
  pose proof (Hmarkers "watch?v=" ltac:(set_solver)) as Hm1.
  pose proof (Hmarkers "embed/" ltac:(set_solver)) as Hm2.
  pose proof (Hmarkers "v/" ltac:(set_solver)) as Hm3.
  clear Hmarkers.
  unfold re_marker. cbn [run].
  change ("?v=" +:+ id +:+ tail) with (String "?" ("v=" +:+ id +:+ tail)).
  destruct (strip_prefix "watch?v=" (path +:+ _)) as [r|] eqn:H1.
  { exfalso. destruct (strip_prefix_beyond _ _ _ _ _ H1 Hm1) as [Hp Hget].
    remember (String.length path) as n eqn:Hn. clear Hn.
    do 9 (destruct n as [|n]; [simpl in Hp, Hget; congruence|]).
    simpl in Hget. congruence. }
  destruct (strip_prefix "embed/" (path +:+ _)) as [r|] eqn:H2.
  { exfalso. destruct (strip_prefix_beyond _ _ _ _ _ H2 Hm2) as [Hp Hget].
    remember (String.length path) as n eqn:Hn. clear Hn.
    do 9 (destruct n as [|n]; [simpl in Hp, Hget; congruence|]).
    simpl in Hget. congruence. }
  destruct (strip_prefix "v/" (path +:+ _)) as [r|] eqn:H3.
  { exfalso. destruct (strip_prefix_beyond _ _ _ _ _ H3 Hm3) as [Hp Hget].
    remember (String.length path) as n eqn:Hn. clear Hn.
    do 9 (destruct n as [|n]; [simpl in Hp, Hget; congruence|]).
    simpl in Hget. congruence. }
  match goal with
  | |- context [run_plus CAny _ g ?K] =>
      destruct (Hk (<[5 := consumed (path +:+ "?v=" +:+ id +:+ tail)
                                    (id +:+ tail)]> g)) as (m & Hm & H6);
      rewrite (run_plus_reach CAny path _ g K m)
  end; try done.
  - by exists m.
  - change ("?v=" +:+ id +:+ tail) with (String "?" ("v=" +:+ id +:+ tail)).
    apply run_plus_no_occurrence.
    rewrite <- app_assoc. apply occurs_absent_head; [|done].
    by rewrite all_app.
Qed.

Lemma extract_video_id_of_url id url :
  valid_video_id id = true → url_of id url → extract_video_id url = Some id.
Proof.
  intros (Hlen & Hclass & Hslash & Hquery)%valid_video_id_facts Hurl.
  assert (∀ tail g, yields (run re_id (id +:+ tail) g (λ _ g', Some g')) id)
    as Hid.
  { intros tail g. rewrite run_id by done.
    eexists. split; [done|]. by rewrite lookup_insert_eq. }
  assert (yields (re_match youtube_regex url) id) as (m & Hm & H6).
  { unfold re_match, youtube_regex, re_path.
    destruct Hurl; apply run_base; try done; intros g'; cbn [run].
    - by apply run_marker_literal.
    - by apply run_marker_short.
    - by apply run_marker_query. }
  unfold extract_video_id. by rewrite Hm.
Qed.

End ExtractShapes.

(** ** The handlers *)

Module HandlerFacts.
Import Str StrFacts ExtractShape.

(** [blank] is: nothing but whitespace. *)
Lemma rstrip_empty s : rstrip s = "" ↔ all isspace s = true.
Proof.
  induction s as [|a s IH]; simpl; [done|].
  destruct (rstrip s) as [|b t] eqn:Hr.
  - destruct (isspace a); simpl; [|done]. by rewrite <- IH.
  - split; [done|]. intros [_ Hs]%andb_prop. by apply IH in Hs.
Qed.

Lemma lstrip_all s : all isspace s = true → lstrip s = "".
Proof.
  induction s as [|a s IH]; simpl; [done|].
  intros [-> Hs]%andb_prop. by apply IH.
Qed.

Lemma all_lstrip s : all isspace (lstrip s) = all isspace s.
Proof.
  induction s as [|a s IH]; simpl; [done|].
  destruct (isspace a) eqn:Ha; simpl; [done|]. by rewrite Ha.
Qed.

Lemma blank_all_space full_text :
  App.blank full_text = all isspace full_text.
Proof.
  unfold App.blank, strip.
  destruct (all isspace full_text) eqn:Hall.
  - rewrite lstrip_all by done. simpl. apply orb_true_r.
  - apply orb_false_iff. split.
    + destruct full_text; [done|]. reflexivity.
    + apply String.eqb_neq. intros Hr%rstrip_empty.
      rewrite all_lstrip in Hr. congruence.
Qed.

Section Handlers.
Context (w : world).

(** The two dicts [/api/video-data] may put under [video_info] are both
    truthy. *)
Lemma video_info_of_truthy info : truthy (App.video_info_of info) = true.
Proof.
  unfold App.video_info_of, truthy. apply negb_true_iff, bool_decide_eq_false.
  intros H. apply (f_equal (λ d, d !! "title")) in H.
  by rewrite lookup_insert_eq in H.
Qed.

Lemma minimal_video_info_truthy id :
  truthy (App.minimal_video_info id) = true.
Proof.
  unfold App.minimal_video_info, truthy.
  apply negb_true_iff, bool_decide_eq_false.
  intros H. apply (f_equal (λ d, d !! "title")) in H.
  by rewrite lookup_insert_eq in H.
Qed.

(** What [fetch_video_details] returns depends on the extractor only,
    and it never raises. *)
Lemma fetch_video_details_outcome url id log :
  (App.fetch_video_details w url id log).1
  = inr match extract_info_of w url with
        | inr info => App.video_details_of info
        | inl _ => App.fallback_details id
        end.
Proof.
  unfold App.fetch_video_details, download_info. unfold_m.
  by destruct (extract_info_of w url).
Qed.

(** When the identifier is found, [get_transcript] runs the body of its
    outer [try]. *)
Lemma get_transcript_found url id :
  extract_video_id url = Some id →
  App.get_transcript w (Some url)
  = try_except (App.transcript_body w url id)
               (λ e, mret (App.error_response 500 (exn_str e))).
Proof.
  intros Hid. unfold App.get_transcript.
  destruct url as [|a url]; [done|]. rewrite Hid.
  destruct id as [|b id]; [|done].
  by apply extract_video_id_nonempty in Hid.
Qed.

(** A captions failure is answered by its [except] clause. *)
Lemma get_transcript_captions_failed url id e :
  extract_video_id url = Some id →
  outcome (App.fetch_full_text w id) = inl e →
  outcome (App.get_transcript w (Some url)) = inr (App.transcript_failure e).
Proof.
  intros Hid He. rewrite (get_transcript_found _ _ Hid).
  unfold App.transcript_body. unfold_m.
  destruct (App.fetch_full_text w id []) as [[e'|t] log]; simpl in *; [|done].
  by injection He as ->.
Qed.

(** After the captions, the answer depends on the text and the
    extractor. *)
Lemma get_transcript_captions_fetched url id full_text :
  extract_video_id url = Some id →
  outcome (App.fetch_full_text w id) = inr full_text →
  let video_details :=
    match extract_info_of w url with
    | inr info => App.video_details_of info
    | inl _ => App.fallback_details id
    end in
  outcome (App.get_transcript w (Some url))
  = inr (if App.blank full_text then
           Response 404 {[ "success" := PBool false;
                           "error" := PStr "Transcript is empty";
                           "video" := video_details ]}
         else
           jsonify {[ "success" := PBool true;
                      "video" := video_details;
                      "transcript" := PStr full_text ]}).
Proof.
  intros Hid Ht. rewrite (get_transcript_found _ _ Hid).
  unfold App.transcript_body. unfold_m.
  destruct (App.fetch_full_text w id []) as [[e'|t] log]; simpl in *; [done|].
  injection Ht as ->.
  pose proof (fetch_video_details_outcome url id log) as Hv.
  destruct (App.fetch_video_details w url id log) as [[e|v] log']; simpl in *;
    [done|].
  injection Hv as ->. by destruct (App.blank full_text).
Qed.

(** The captions of the primary endpoint, against the provider. *)
Lemma fetch_full_text_raised id e :
  list_transcripts_of w id = inl e →
  outcome (App.fetch_full_text w id) = inl e.
Proof.
  intros H. unfold App.fetch_full_text, list_transcripts. unfold_m.
  by rewrite H.
Qed.

Lemma fetch_full_text_english id tl t :
  list_transcripts_of w id = inr tl →
  find_transcript tl ["en"] = inr t →
  outcome (App.fetch_full_text w id)
  = match fetched t with
    | inl e => inl e
    | inr parts => inr (join " " (seg_text <$> parts))
    end.
Proof.
  intros Hl Hen. unfold App.fetch_full_text, list_transcripts, fetch.
  unfold_m. rewrite Hl, Hen. simpl. by destruct (fetched t).
Qed.

(** Without an English transcript the second lookup is made with no
    language code at all, and finds nothing. *)
Lemma fetch_full_text_no_english id tl :
  list_transcripts_of w id = inr tl →
  manually_created tl !! "en" = None →
  generated tl !! "en" = None →
  outcome (App.fetch_full_text w id)
  = inl (NoTranscriptFound (not_found_message tl)).
Proof.
  intros Hl Hm Hg. unfold App.fetch_full_text, list_transcripts, fetch.
  unfold_m. rewrite Hl. simpl. by rewrite Hm, Hg.
Qed.

(** *** [/api/video-data] *)

(** The captions of the combined endpoint do not depend on what was
    called before. *)
Lemma api_get_transcript_outcome id languages log :
  (api_get_transcript w id languages log).1
  = outcome (api_get_transcript w id languages).
Proof.
  unfold api_get_transcript, list_transcripts, fetch. unfold_m.
  destruct (list_transcripts_of w id) as [e|tl]; [done|]. simpl.
  destruct (find_transcript tl languages) as [e|t]; [done|]. done.
Qed.

Lemma api_get_transcript_calls id languages log :
  CallListTranscripts id ∈ (api_get_transcript w id languages log).2.
Proof.
  unfold api_get_transcript, list_transcripts, fetch. unfold_m.
  destruct (list_transcripts_of w id) as [e|tl]; simpl; [set_solver|].
  destruct (find_transcript tl languages) as [e|t]; simpl; set_solver.
Qed.

Lemma api_get_transcript_log id languages log :
  ∃ more, (api_get_transcript w id languages log).2 = (log ++ more)%list.
Proof.
  unfold api_get_transcript, list_transcripts, fetch. unfold_m.
  destruct (list_transcripts_of w id) as [e|tl]; simpl; [by eexists|].
  destruct (find_transcript tl languages) as [e|t]; simpl.
  - by eexists.
  - rewrite <- (assoc_L (++)%list). by eexists.
Qed.

Lemma fill_video_info_run url id result log :
  App.fill_video_info w url id result log
  = (inr (with_video_info w url id result), (log ++ [CallExtractInfo url])%list).
Proof.
  unfold App.fill_video_info, with_video_info, download_info. unfold_m.
  by destruct (extract_info_of w url).
Qed.

Lemma fill_transcript_outcome id result log :
  (App.fill_transcript w id result log).1 = inr (with_transcript w id result).
Proof.
  unfold App.fill_transcript, with_transcript. unfold_m.
  pose proof (api_get_transcript_outcome id App.ALL_LANGUAGES log) as H.
  unfold outcome in H.
  destruct (api_get_transcript w id App.ALL_LANGUAGES log) as [[e|d] log'];
    simpl in H; by rewrite <- H.
Qed.

Lemma fill_transcript_calls id result log :
  CallListTranscripts id ∈ (App.fill_transcript w id result log).2
  ∧ ∃ more, (App.fill_transcript w id result log).2 = (log ++ more)%list.
Proof.
  unfold App.fill_transcript. unfold_m.
  pose proof (api_get_transcript_calls id App.ALL_LANGUAGES log) as H.
  pose proof (api_get_transcript_log id App.ALL_LANGUAGES log) as H'.
  by destruct (api_get_transcript w id App.ALL_LANGUAGES log) as [[e|d] log'].
Qed.

Lemma with_transcript_video_info url id :
  ∃ v, with_transcript w id (with_video_info w url id (initial_result id))
         !! "video_info" = Some v
       ∧ truthy v = true.
Proof.
  unfold with_transcript, with_video_info, initial_result.
  destruct (outcome _) as [e|d]; destruct (extract_info_of w url) as [e'|info];
    eexists; (split; [by simplify_map_eq|]);
    auto using video_info_of_truthy, minimal_video_info_truthy.
Qed.

(** The key [transcript_error] is in the dict from the start, so the
    second half of the test on line 231 always holds. *)
Lemma with_transcript_error_key url id :
  is_Some (with_transcript w id (with_video_info w url id (initial_result id))
             !! "transcript_error").
Proof.
  unfold with_transcript, with_video_info, initial_result.
  destruct (outcome _) as [e|d]; destruct (extract_info_of w url) as [e'|info];
    by simplify_map_eq.
Qed.

Lemma with_transcript_video_info_error url id :
  is_Some (with_transcript w id (with_video_info w url id (initial_result id))
             !! "video_info_error")
  ↔ ∃ e, extract_info_of w url = inl e.
Proof.
  unfold with_transcript, with_video_info, initial_result.
  destruct (outcome _) as [e|d]; destruct (extract_info_of w url) as [e'|info];
    simplify_map_eq; split; try (by eauto); try (by intros [? [=]]);
    by intros [? ?].
Qed.

Lemma get_video_data_found url id :
  extract_video_id url = Some id →
  outcome (App.get_video_data w (Some url)) = inr (jsonify (final_result w url id))
  ∧ CallExtractInfo url ∈ calls (App.get_video_data w (Some url))
  ∧ CallListTranscripts id ∈ calls (App.get_video_data w (Some url)).
Proof.
  intros Hid. unfold App.get_video_data.
  destruct url as [|a url]; [done|]. rewrite Hid.
  destruct id as [|b id]; [by apply extract_video_id_nonempty in Hid|].
  set (url' := String a url) in *. set (id' := String b id) in *.
  fold (initial_result id').
  unfold outcome, calls, mbind, M_bind, bind.
  rewrite fill_video_info_run.
  pose proof (fill_transcript_outcome id'
                (with_video_info w url' id' (initial_result id'))
                ([] ++ [CallExtractInfo url'])%list) as Hout.
  pose proof (fill_transcript_calls id'
                (with_video_info w url' id' (initial_result id'))
                ([] ++ [CallExtractInfo url'])%list) as [Hcall [more Hlog]].
  destruct (App.fill_transcript _ _ _ _) as [[e|result] log]; simpl in *;
    [done|].
  injection Hout as ->. subst log.
  unfold App.mark_overall_failure, getitem. unfold_m.
  destruct (with_transcript_video_info url' id') as (v & -> & Hv).
  rewrite Hv. simpl.
  rewrite (bool_decide_eq_true_2 _ (with_transcript_error_key url' id')).
  rewrite andb_true_r. unfold final_result.
  destruct (extract_info_of w url') as [e|info] eqn:Hinfo.
  - rewrite bool_decide_eq_true_2
      by (apply with_transcript_video_info_error; eauto).
    simpl. split; [done|]. split; [clear Hcall; set_solver|assumption].
  - rewrite bool_decide_eq_false_2.
    { simpl. split; [done|]. split; [clear Hcall; set_solver|assumption]. }
    rewrite with_transcript_video_info_error. intros [? ?]. congruence.
Qed.

(** The fields of the answer of [/api/video-data]. *)
Lemma final_result_success url id :
  final_result w url id !! "success"
  = Some (PBool match extract_info_of w url with inr _ => true | inl _ => false end).
Proof.
  unfold final_result, with_transcript, with_video_info, initial_result.
  destruct (outcome _) as [e|d]; destruct (extract_info_of w url) as [e'|info];
    by simplify_map_eq.
Qed.

Lemma final_result_video_info_error url id :
  final_result w url id !! "video_info_error"
  = match extract_info_of w url with
    | inr _ => None
    | inl e => Some (PStr ("Error fetching video info: " +:+ exn_str e))
    end.
Proof.
  unfold final_result, with_transcript, with_video_info, initial_result.
  destruct (outcome _) as [e|d]; destruct (extract_info_of w url) as [e'|info];
    by simplify_map_eq.
Qed.

Lemma final_result_transcript_error url id :
  final_result w url id !! "transcript_error"
  = Some match outcome (api_get_transcript w id App.ALL_LANGUAGES) with
         | inr _ => PNone
         | inl e => PStr (App.transcript_error_of e)
         end.
Proof.
  unfold final_result, with_transcript, with_video_info, initial_result.
  destruct (outcome _) as [e|d]; destruct (extract_info_of w url) as [e'|info];
    by simplify_map_eq.
Qed.

Lemma final_result_transcript url id :
  final_result w url id !! "transcript"
  = Some match outcome (api_get_transcript w id App.ALL_LANGUAGES) with
         | inr transcript_data => PList (segment_json <$> transcript_data)
         | inl _ => PNone
         end.
Proof.
  unfold final_result, with_transcript, with_video_info, initial_result.
  destruct (outcome _) as [e|d]; destruct (extract_info_of w url) as [e'|info];
    by simplify_map_eq.
Qed.

Lemma final_result_transcript_text url id :
  final_result w url id !! "transcript_text"
  = match outcome (api_get_transcript w id App.ALL_LANGUAGES) with
    | inr transcript_data => Some (PStr (App.plain_text_of transcript_data))
    | inl _ => None
    end.
Proof.
  unfold final_result, with_transcript, with_video_info, initial_result.
  destruct (outcome _) as [e|d]; destruct (extract_info_of w url) as [e'|info];
    by simplify_map_eq.
Qed.

Lemma final_result_video_info url id :
  final_result w url id !! "video_info"
  = Some match extract_info_of w url with
         | inr info => App.video_info_of info
         | inl _ => App.minimal_video_info id
         end.
Proof.
  unfold final_result, with_transcript, with_video_info, initial_result.
  destruct (outcome _) as [e|d]; destruct (extract_info_of w url) as [e'|info];
    by simplify_map_eq.
Qed.

Lemma final_result_error url id :
  final_result w url id !! "error"
  = match extract_info_of w url with
    | inr _ => None
    | inl _ =>
        Some (PStr "Failed to retrieve both video information and transcript")
    end.
Proof.
  unfold final_result, with_transcript, with_video_info, initial_result.
  destruct (outcome _) as [e|d]; destruct (extract_info_of w url) as [e'|info];
    by simplify_map_eq.
Qed.

(** *** Requests that are answered before any call *)

Lemma get_transcript_not_found url :
  extract_video_id url = None →
  App.get_transcript w (Some url) []
  = (inr (if String.eqb url "" then App.missing_url else App.invalid_url), []).
Proof.
  intros Hid. unfold App.get_transcript.
  destruct url as [|a url]; [done|]. by rewrite Hid.
Qed.

Lemma get_video_data_not_found url :
  extract_video_id url = None →
  App.get_video_data w (Some url) []
  = (inr (if String.eqb url "" then App.missing_url else App.invalid_url), []).
Proof.
  intros Hid. unfold App.get_video_data.
  destruct url as [|a url]; [done|]. by rewrite Hid.
Qed.

(** *** Every answer of Service B has a [success] flag *)

Lemma error_response_success code message :
  body (App.error_response code message) !! "success" = Some (PBool false).
Proof. unfold App.error_response. simpl. by simplify_map_eq. Qed.

Lemma transcript_failure_success e :
  body (App.transcript_failure e) !! "success" = Some (PBool false).
Proof. destruct e; apply error_response_success. Qed.




(** *** Service A answers without a [success] flag *)




End Handlers.
End HandlerFacts.

(** * The claims of the specification *)

Import Str StrFacts ExtractShape ExtractShapes HandlerFacts.

(** ** Identifier extraction *)

(** C3, as the code has it.  [extract_video_id] is a total function; it
    answers [None] or an identifier of exactly 11 characters, none of which
    is [&], [=], [%] or [?]; and the match is anchored: when an identifier is
    found, the input itself starts with an optional scheme, an optional
    [www.], a host, a dot, [com] or [be] and a slash, and the identifier
    follows whatever the optional marker group matched. *)
Theorem extract_video_id_total_anchored (url : string) :
  extract_video_id url = None
  ∨ ∃ id,
      extract_video_id url = Some id
      ∧ String.length id = 11
      ∧ Str.all (accepts id_class) id = true
      ∧ ∃ scheme www host tld marker tail,
          scheme ∈ schemes ∧ www ∈ wwws ∧ host ∈ hosts ∧ tld ∈ tlds
          ∧ url = base_url scheme www host tld +:+ marker +:+ id +:+ tail.
Proof.
  destruct (extract_video_id url) as [id|] eqn:Hid; [right|by left].
  exists id. split; [done|]. by apply extract_video_id_Some.
Qed.

(** C3 as stated fails: the Shorts URL of a video yields eleven characters
    that are not an identifier (they contain a slash and stop short of the
    video's own identifier). *)
Lemma extract_video_id_shorts_url :
  extract_video_id "https://www.youtube.com/shorts/dQw4w9WgXcQ"
  = Some "shorts/dQw4"
  ∧ valid_video_id "shorts/dQw4" = false.
Proof. split; reflexivity. Qed.

(** Leading characters are not skipped over. *)
Example extract_video_id_leading_space :
  extract_video_id (" " +:+ sample_url) = None
  ∧ extract_video_id ("see " +:+ sample_url) = None.
Proof. split; reflexivity. Qed.

(** C4, as the code has it.  An identifier of eleven letters, digits, [-]
    and [_] is extracted unchanged from the URLs of [url_of]: with or
    without a scheme, with or without [www.], on any of the hosts; after
    [watch?v=], [embed/] or [v/], whatever follows the identifier; directly
    after the slash (the [youtu.be] short form) or after a path that ends in
    [?v=], when nothing that follows the identifier contains [?v=]; the path
    is not empty, is on one line and does not begin with [watch?v=],
    [embed/] or [v/]. *)
Theorem extract_video_id_same_identifier (id url : string) :
  valid_video_id id = true → url_of id url → extract_video_id url = Some id.
Proof. apply extract_video_id_of_url. Qed.

Lemma extract_video_id_same_identifier_witness :
  valid_video_id sample_id = true
  ∧ url_of sample_id "https://www.youtube-nocookie.com/embed/dQw4w9WgXcQ?rel=0"
  ∧ extract_video_id "https://www.youtube-nocookie.com/embed/dQw4w9WgXcQ?rel=0"
    = Some sample_id.
Proof.
  assert (url_of sample_id
            "https://www.youtube-nocookie.com/embed/dQw4w9WgXcQ?rel=0") as Hurl.
  { apply (url_marker sample_id "https://" "www." "youtube-nocookie" "com"
             "embed/" "?rel=0"); repeat constructor. }
  split; [reflexivity|]. split; [exact Hurl|].
  apply (extract_video_id_same_identifier sample_id _ eq_refl Hurl).
Defined.

(** C4 as stated fails: a short link and an embed link built from the
    sample identifier give another identifier when a [?v=] follows, a path
    that contains a [?v=] gives the identifier after its last [?v=], not the
    one after its first, and a [?v=] right after the slash gives none. *)
Lemma url_shapes_can_disagree :
  valid_video_id sample_id = true
  ∧ extract_video_id "https://youtu.be/dQw4w9WgXcQ?v=AAAAAAAAAAA"
    = Some "AAAAAAAAAAA"
  ∧ extract_video_id "https://www.youtube.com/embed/AAAAAAAAAAA?v=dQw4w9WgXcQ"
    = Some "AAAAAAAAAAA"
  ∧ extract_video_id
      "https://www.youtube.com/playlist?v=dQw4w9WgXcQ&next=?v=AAAAAAAAAAA"
    = Some "AAAAAAAAAAA"
  ∧ extract_video_id "https://www.youtube.com/?v=dQw4w9WgXcQ" = None.
Proof. repeat split; reflexivity. Qed.

(** The shapes of C4 on the sample video. *)
Example extract_video_id_sample_urls :
  Forall (λ url, extract_video_id url = Some sample_id)
    [ "https://www.youtube.com/watch?v=dQw4w9WgXcQ";
      "http://youtube.com/watch?v=dQw4w9WgXcQ&t=42";
      "www.youtube.com/watch?v=dQw4w9WgXcQ";
      "youtu.be/dQw4w9WgXcQ";
      "https://youtu.be/dQw4w9WgXcQ?t=42";
      "https://www.youtube.com/embed/dQw4w9WgXcQ";
      "https://www.youtube.com/v/dQw4w9WgXcQ";
      "https://www.youtube.com/playlist/item?v=dQw4w9WgXcQ";
      "https://www.youtube-nocookie.com/embed/dQw4w9WgXcQ" ].
Proof. repeat constructor. Qed.

(** Why [url_of] asks what it asks of a path and of what follows the
    identifier: an earlier marker and a later [?v=] both win. *)
Example extract_video_id_overlapping_shapes :
  extract_video_id "youtube.com/embed/AAAAAAAAAAA?v=dQw4w9WgXcQ"
  = Some "AAAAAAAAAAA"
  ∧ extract_video_id "youtu.be/dQw4w9WgXcQ?v=AAAAAAAAAAA" = Some "AAAAAAAAAAA".
Proof. split; reflexivity. Qed.

(** ** Requests without a recognisable URL *)

(** C5.  When no identifier is found in the URL, [/api/transcript] and
    [/api/video-data] answer 400 with [success] false, and neither the
    captions provider nor the metadata extractor has been called. *)
Theorem unrecognised_url_rejected_without_calls (w : world) (url : string) :
  extract_video_id url = None →
  (∃ r, outcome (App.get_transcript w (Some url)) = inr r
        ∧ status r = 400
        ∧ body r !! "success" = Some (PBool false)
        ∧ calls (App.get_transcript w (Some url)) = [])
  ∧ (∃ r, outcome (App.get_video_data w (Some url)) = inr r
          ∧ status r = 400
          ∧ body r !! "success" = Some (PBool false)
          ∧ calls (App.get_video_data w (Some url)) = []).
Proof.
  intros Hid. unfold outcome, calls.
  rewrite (get_transcript_not_found w _ Hid), (get_video_data_not_found w _ Hid).
  simpl. split; eexists; (split; [done|]);
    destruct (String.eqb url ""); (split; [done|]);
    (split; [apply error_response_success|done]).
Qed.

Lemma unrecognised_url_rejected_without_calls_witness :
  extract_video_id "https://example.com/watch?v=dQw4w9WgXcQ" = None
  ∧ calls (App.get_transcript metadata_down
             (Some "https://example.com/watch?v=dQw4w9WgXcQ")) = []
  ∧ calls (App.get_video_data metadata_down
             (Some "https://example.com/watch?v=dQw4w9WgXcQ")) = [].
Proof.
  split; [reflexivity|].
  destruct (unrecognised_url_rejected_without_calls metadata_down
              "https://example.com/watch?v=dQw4w9WgXcQ" eq_refl)
    as [(r1 & _ & _ & _ & H1) (r2 & _ & _ & _ & H2)].
  split; [exact H1|exact H2].
Defined.

(** ** The transcript-only endpoint *)

(** C6.  When the captions retrieval of [/api/transcript] raises, the answer
    tells the failures apart: 404 with a message of its own for disabled
    transcripts (it contains "disabled"), for no transcript found and for an
    unavailable video, and 500 with "Error fetching transcript: " followed by
    the exception's message for anything else. *)
Theorem transcript_failure_signals (w : world) (url id : string) (e : exn) :
  extract_video_id url = Some id →
  outcome (App.fetch_full_text w id) = inl e →
  (∃ r, outcome (App.get_transcript w (Some url)) = inr r
        ∧ body r !! "success" = Some (PBool false)
        ∧ match e with
          | TranscriptsDisabled _ =>
              status r = 404
              ∧ body r !! "error"
                = Some (PStr "Transcripts are disabled for this video")
          | NoTranscriptFound _ =>
              status r = 404
              ∧ body r !! "error" = Some (PStr "No transcript found for this video")
          | VideoUnavailable _ =>
              status r = 404
              ∧ body r !! "error" = Some (PStr "The video is unavailable")
          | OtherException msg =>
              status r = 500
              ∧ body r !! "error"
                = Some (PStr ("Error fetching transcript: " +:+ msg))
          end)
  ∧ Str.occurs "disabled" "Transcripts are disabled for this video" = true
  ∧ NoDup [ "Transcripts are disabled for this video";
            "No transcript found for this video";
            "The video is unavailable" ].
Proof.
  intros Hid He. split; [|split; [reflexivity|]].
  - rewrite (get_transcript_captions_failed w _ _ _ Hid He).
    eexists. split; [done|]. split; [apply transcript_failure_success|].
    by destruct e.
  - compute_done.
Qed.

Lemma transcript_failure_signals_witness :
  let w := world_of (inl (TranscriptsDisabled "subtitles are disabled"))
                    (inr sample_info) in
  extract_video_id sample_url = Some sample_id
  ∧ outcome (App.fetch_full_text w sample_id)
    = inl (TranscriptsDisabled "subtitles are disabled")
  ∧ ∃ r, outcome (App.get_transcript w (Some sample_url)) = inr r
         ∧ status r = 404.
Proof.
  intros w. split; [reflexivity|]. split; [reflexivity|].
  destruct (transcript_failure_signals w sample_url sample_id
              (TranscriptsDisabled "subtitles are disabled") eq_refl eq_refl)
    as [(r & Hr & _ & Hstatus & _) _].
  exists r. split; [exact Hr|exact Hstatus].
Defined.

(** What the provider has to do for the captions retrieval to raise: the
    listing raises, or the fetch of the transcript found does. *)
Lemma fetch_full_text_fetch_raised (w : world) (id : string) tl t e :
  list_transcripts_of w id = inr tl →
  find_transcript tl ["en"] = inr t →
  fetched t = inl e →
  outcome (App.fetch_full_text w id) = inl e.
Proof.
  intros Hl Hen He. rewrite (fetch_full_text_english w _ _ _ Hl Hen).
  by rewrite He.
Qed.

(** C7 at a video whose only transcript is German: the second lookup asks
    for no language at all, so the German transcript is not retrieved and
    the request is answered as if the video had no transcript. *)
Theorem german_only_video_gets_no_transcript :
  outcome (App.get_transcript (world_of (inr german_only) (inr sample_info))
             (Some sample_url))
  = inr (App.error_response 404 "No transcript found for this video").
Proof. reflexivity. Qed.

(** The same for every video without an English transcript, whatever else
    it has. *)
Lemma no_english_transcript_is_404 (w : world) (url id : string) tl :
  extract_video_id url = Some id →
  list_transcripts_of w id = inr tl →
  manually_created tl !! "en" = None →
  generated tl !! "en" = None →
  outcome (App.get_transcript w (Some url))
  = inr (App.error_response 404 "No transcript found for this video").
Proof.
  intros Hid Hl Hm Hg.
  apply (get_transcript_captions_failed w _ _ _ Hid
           (fetch_full_text_no_english w _ _ Hl Hm Hg)).
Qed.

(** English is asked for first. *)
Lemma english_transcript_is_preferred (w : world) (id : string) tl t parts :
  list_transcripts_of w id = inr tl →
  manually_created tl !! "en" = Some t →
  fetched t = inr parts →
  outcome (App.fetch_full_text w id) = inr (Str.join " " (seg_text <$> parts))
  ∧ calls (App.fetch_full_text w id) = [CallListTranscripts id; CallFetch (language_code t)].
Proof.
  intros Hl Hen Hparts.
  unfold App.fetch_full_text, list_transcripts, fetch. unfold_m.
  rewrite Hl. simpl. rewrite Hen. simpl. by rewrite Hparts.
Qed.

(** C8, as the code has it.  When the captions are fetched, their flattened
    text is not blank and the metadata extractor raises, [/api/transcript]
    still answers 200 with [success] true; the video record is the fallback:
    the title "Video " and the identifier, the thumbnail on i.ytimg.com, and
    "Unknown" in each of the five other fields.  Building it cannot raise:
    the answer is a response whatever the exception was. *)
Theorem metadata_failure_fallback (w : world) (url id full_text : string)
  (e : exn) :
  extract_video_id url = Some id →
  outcome (App.fetch_full_text w id) = inr full_text →
  Str.all Str.isspace full_text = false →
  extract_info_of w url = inl e →
  outcome (App.get_transcript w (Some url))
  = inr (Response 200
           {[ "success" := PBool true;
              "video" :=
                PDict {[ "title" := PStr ("Video " +:+ id);
                         "thumbnail" :=
                           PStr ("https://i.ytimg.com/vi/" +:+ id
                                   +:+ "/hqdefault.jpg");
                         "duration" := PStr "Unknown";
                         "views" := PStr "Unknown";
                         "upload_date" := PStr "Unknown";
                         "channel" := PStr "Unknown";
                         "likes" := PStr "Unknown" ]};
              "transcript" := PStr full_text ]}).
Proof.
  intros Hid Ht Hblank He.
  rewrite (get_transcript_captions_fetched w _ _ _ Hid Ht).
  by rewrite blank_all_space, Hblank, He.
Qed.

Lemma metadata_failure_fallback_witness :
  extract_video_id sample_url = Some sample_id
  ∧ outcome (App.fetch_full_text metadata_down sample_id) = inr "a b"
  ∧ Str.all Str.isspace "a b" = false
  ∧ extract_info_of metadata_down sample_url
    = inl (OtherException "Video unavailable")
  ∧ ∃ r, outcome (App.get_transcript metadata_down (Some sample_url)) = inr r
         ∧ status r = 200.
Proof.
  repeat (split; [reflexivity|]).
  eexists. split;
    [apply (metadata_failure_fallback metadata_down sample_url sample_id "a b"
              (OtherException "Video unavailable")
              eq_refl eq_refl eq_refl eq_refl)
    |reflexivity].
Defined.

(** C8 as stated fails twice: the fallback record holds more than a title and
    a thumbnail, and with captions that are blank the answer is a 404. *)
Lemma fallback_record_and_blank_captions :
  (∃ r d, outcome (App.get_transcript metadata_down (Some sample_url)) = inr r
          ∧ body r !! "video" = Some (PDict d)
          ∧ d !! "duration" = Some (PStr "Unknown")
          ∧ d !! "channel" = Some (PStr "Unknown"))
  ∧ (∃ r, outcome (App.get_transcript
                     (world_of (inr silent_english)
                               (inl (OtherException "Video unavailable")))
                     (Some sample_url)) = inr r
          ∧ status r = 404
          ∧ body r !! "success" = Some (PBool false)).
Proof.
  split.
  - eexists _, _. split; [reflexivity|]. split; [reflexivity|].
    split; reflexivity.
  - eexists. split; [reflexivity|]. split; reflexivity.
Qed.

(** C10.  When the captions are fetched and their flattened text is empty or
    nothing but whitespace, [/api/transcript] answers 404 with [success]
    false and the error "Transcript is empty", and the video record, fetched
    or fallback, is in the body. *)
Theorem blank_transcript_is_404 (w : world) (url id full_text : string) :
  extract_video_id url = Some id →
  outcome (App.fetch_full_text w id) = inr full_text →
  Str.all Str.isspace full_text = true →
  outcome (App.get_transcript w (Some url))
  = inr (Response 404
           {[ "success" := PBool false;
              "error" := PStr "Transcript is empty";
              "video" :=
                match extract_info_of w url with
                | inr info => App.video_details_of info
                | inl _ => App.fallback_details id
                end ]}).
Proof.
  intros Hid Ht Hblank.
  rewrite (get_transcript_captions_fetched w _ _ _ Hid Ht).
  by rewrite blank_all_space, Hblank.
Qed.

Lemma blank_transcript_is_404_witness :
  let w := world_of (inr silent_english) (inr sample_info) in
  extract_video_id sample_url = Some sample_id
  ∧ outcome (App.fetch_full_text w sample_id) = inr "  "
  ∧ Str.all Str.isspace "  " = true
  ∧ ∃ r, outcome (App.get_transcript w (Some sample_url)) = inr r
         ∧ status r = 404.
Proof.
  intros w. repeat (split; [reflexivity|]).
  eexists. split;
    [apply (blank_transcript_is_404 w sample_url sample_id "  "
              eq_refl eq_refl eq_refl)
    |reflexivity].
Defined.

(** ** The two text forms *)

Lemma api_get_transcript_fetched (w : world) (id : string) languages tl t :
  list_transcripts_of w id = inr tl →
  find_transcript tl languages = inr t →
  outcome (api_get_transcript w id languages) = fetched t.
Proof.
  intros Hl Hf. unfold api_get_transcript, list_transcripts, fetch. unfold_m.
  rewrite Hl. simpl. rewrite Hf. simpl. by destruct (fetched t).
Qed.

(** C9.  Whatever segments the provider returns, the text of
    [/api/transcript] is their texts joined by single spaces, and the
    [transcript_text] of [/api/video-data] is one line per segment, the start
    and the end (start plus duration) with two decimals, " - " between them
    and ": " before the text, joined by newlines.  The transcript of the
    specification's example gives the two lines it expects. *)
Theorem flattened_text_forms (w : world) (url id : string)
  (tl : transcript_list) (t_en t_all : transcript)
  (parts_en parts_all : list segment) :
  extract_video_id url = Some id →
  list_transcripts_of w id = inr tl →
  find_transcript tl ["en"] = inr t_en →
  fetched t_en = inr parts_en →
  find_transcript tl App.ALL_LANGUAGES = inr t_all →
  fetched t_all = inr parts_all →
  outcome (App.fetch_full_text w id)
  = inr (Str.join " " (seg_text <$> parts_en))
  ∧ (Str.all Str.isspace (Str.join " " (seg_text <$> parts_en)) = false →
     ∃ r, outcome (App.get_transcript w (Some url)) = inr r
          ∧ body r !! "transcript"
            = Some (PStr (Str.join " " (seg_text <$> parts_en))))
  ∧ (∃ r, outcome (App.get_video_data w (Some url)) = inr r
          ∧ body r !! "transcript" = Some (PList (segment_json <$> parts_all))
          ∧ body r !! "transcript_text"
            = Some (PStr (Str.join (String newline "")
                ((λ item,
                    format_2f (seg_start item) +:+ " - "
                      +:+ format_2f (seg_start item + seg_duration item)%float
                      +:+ ": " +:+ seg_text item) <$> parts_all))))
  ∧ App.plain_text_of sample_segments
    = "0.00 - 5.28: a" +:+ String newline "5.28 - 8.70: b".
Proof.
  intros Hid Hl Hen Hparts Hall Hparts'.
  assert (outcome (App.fetch_full_text w id)
          = inr (Str.join " " (seg_text <$> parts_en))) as Htext.
  { rewrite (fetch_full_text_english w _ _ _ Hl Hen). by rewrite Hparts. }
  split; [done|]. split; [|split; [|reflexivity]].
  - intros Hblank.
    rewrite (get_transcript_captions_fetched w _ _ _ Hid Htext).
    rewrite blank_all_space, Hblank. eexists. split; [done|].
    simpl. by simplify_map_eq.
  - destruct (get_video_data_found w _ _ Hid) as (-> & _).
    eexists. split; [done|]. simpl.
    rewrite final_result_transcript, final_result_transcript_text.
    rewrite (api_get_transcript_fetched w _ _ _ _ Hl Hall), Hparts'.
    done.
Qed.

Lemma flattened_text_forms_witness :
  let w := world_of (inr english_only) (inr sample_info) in
  let t := Transcript "en" (inr sample_segments) in
  extract_video_id sample_url = Some sample_id
  ∧ list_transcripts_of w sample_id = inr english_only
  ∧ find_transcript english_only ["en"] = inr t
  ∧ find_transcript english_only App.ALL_LANGUAGES = inr t
  ∧ outcome (App.fetch_full_text w sample_id) = inr "a b".
Proof.
  intros w t. repeat (split; [reflexivity|]).
  apply (flattened_text_forms w sample_url sample_id english_only t t
           sample_segments sample_segments
           eq_refl eq_refl eq_refl eq_refl eq_refl eq_refl).
Defined.

(** ** The combined endpoint *)

(** C1, as the code has it.  Once the identifier is found,
    [/api/video-data] calls the metadata extractor and the captions provider
    both, whatever either does, and answers 200; a failure of the extractor
    is recorded under [video_info_error] and a failure of the captions under
    [transcript_error]; [success] is false exactly when the extractor failed,
    whatever the captions did.  When both failed the top-level [error] says
    so; when the extractor succeeded there is no top-level [error]. *)
Theorem video_data_partial_failure (w : world) (url id : string) :
  extract_video_id url = Some id →
  ∃ r,
    outcome (App.get_video_data w (Some url)) = inr r
    ∧ status r = 200
    ∧ CallExtractInfo url ∈ calls (App.get_video_data w (Some url))
    ∧ CallListTranscripts id ∈ calls (App.get_video_data w (Some url))
    ∧ body r !! "video_info_error"
      = match extract_info_of w url with
        | inl e => Some (PStr ("Error fetching video info: " +:+ exn_str e))
        | inr _ => None
        end
    ∧ body r !! "transcript_error"
      = Some match outcome (api_get_transcript w id App.ALL_LANGUAGES) with
             | inl e => PStr (App.transcript_error_of e)
             | inr _ => PNone
             end
    ∧ body r !! "success"
      = Some (PBool match extract_info_of w url with
                    | inl _ => false
                    | inr _ => true
                    end)
    ∧ match extract_info_of w url,
            outcome (api_get_transcript w id App.ALL_LANGUAGES) with
      | inl _, inl _ =>
          body r !! "error"
          = Some (PStr "Failed to retrieve both video information and transcript")
      | inl _, inr _ => True
      | inr _, _ => body r !! "error" = None
      end.
Proof.
  intros Hid. destruct (get_video_data_found w _ _ Hid) as (Hr & Hinfo & Hlist).
  eexists. split; [exact Hr|]. split; [done|].
  split; [done|]. split; [done|]. simpl.
  rewrite final_result_video_info_error, final_result_transcript_error,
    final_result_success, final_result_error.
  destruct (extract_info_of w url);
    destruct (outcome (api_get_transcript w id App.ALL_LANGUAGES));
    by repeat split.
Qed.

Lemma video_data_partial_failure_witness :
  let w := world_of (inl (VideoUnavailable "gone")) (inr sample_info) in
  extract_video_id sample_url = Some sample_id
  ∧ ∃ r, outcome (App.get_video_data w (Some sample_url)) = inr r
         ∧ body r !! "success" = Some (PBool true)
         ∧ body r !! "transcript_error" = Some (PStr "The video is unavailable").
Proof.
  intros w. split; [reflexivity|].
  destruct (video_data_partial_failure w sample_url sample_id eq_refl)
    as (r & Hr & _ & _ & _ & _ & Herr & Hsuccess & _).
  exists r. split; [exact Hr|]. split; [exact Hsuccess|exact Herr].
Defined.

(** C1 as stated fails: the extractor is down and the captions are fetched,
    yet [success] is false. *)
Lemma metadata_only_failure_flips_success :
  ∃ r, outcome (App.get_video_data metadata_down (Some sample_url)) = inr r
       ∧ body r !! "transcript"
         = Some (PList (segment_json <$> sample_segments))
       ∧ body r !! "transcript_error" = Some PNone
       ∧ body r !! "success" = Some (PBool false).
Proof.
  eexists. split; [reflexivity|]. split; [reflexivity|]. split; reflexivity.
Qed.

(** ** The envelope *)



(** * Further properties of the handlers *)

(** ** What each handler calls, and in which order *)

Module RunFacts.

Section Runs.
Context (w : world).

(** The captions of [/api/transcript] call the listing, and fetch the
    English transcript when there is one. *)
Lemma fetch_full_text_calls id :
  calls (App.fetch_full_text w id)
  = CallListTranscripts id
      :: match list_transcripts_of w id with
         | inr tl =>
             match find_transcript tl ["en"] with
             | inr t => [CallFetch (language_code t)]
             | inl _ => []
             end
         | inl _ => []
         end.
Proof.
  unfold App.fetch_full_text, list_transcripts, fetch. unfold_m.
  destruct (list_transcripts_of w id) as [e|tl]; [done|]. simpl.
  destruct (manually_created tl !! "en") as [t|]; simpl;
    [by destruct (fetched t)|].
  destruct (generated tl !! "en") as [t|]; simpl; [by destruct (fetched t)|].
  done.
Qed.

Lemma get_transcript_calls url id :
  extract_video_id url = Some id →
  calls (App.get_transcript w (Some url))
  = (calls (App.fetch_full_text w id)
       ++ match outcome (App.fetch_full_text w id) with
          | inr _ => [CallExtractInfo url]
          | inl _ => []
          end)%list.
Proof.
  intros Hid. rewrite (get_transcript_found w _ _ Hid).
  unfold App.transcript_body, App.fetch_video_details, download_info. unfold_m.
  destruct (App.fetch_full_text w id []) as [[e|t] log]; simpl.
  - by rewrite app_nil_r.
  - destruct (extract_info_of w url); simpl; by destruct (App.blank t).
Qed.

(** The captions of [/api/video-data], started on any log. *)
Lemma api_get_transcript_run id languages log :
  api_get_transcript w id languages log
  = (outcome (api_get_transcript w id languages),
     (log ++ calls (api_get_transcript w id languages))%list).
Proof.
  unfold api_get_transcript, list_transcripts, fetch. unfold_m.
  destruct (list_transcripts_of w id) as [e|tl]; [done|]. simpl.
  destruct (find_transcript tl languages) as [e|t]; [done|]. simpl.
  by rewrite <- (assoc_L (++)%list).
Qed.

Lemma api_get_transcript_calls_explicit id languages :
  calls (api_get_transcript w id languages)
  = CallListTranscripts id
      :: match list_transcripts_of w id with
         | inr tl =>
             match find_transcript tl languages with
             | inr t => [CallFetch (language_code t)]
             | inl _ => []
             end
         | inl _ => []
         end.
Proof.
  unfold api_get_transcript, list_transcripts, fetch. unfold_m.
  destruct (list_transcripts_of w id) as [e|tl]; [done|]. simpl.
  by destruct (find_transcript tl languages) as [e|t].
Qed.

Lemma get_video_data_calls url id :
  extract_video_id url = Some id →
  calls (App.get_video_data w (Some url))
  = CallExtractInfo url :: calls (api_get_transcript w id App.ALL_LANGUAGES).
Proof.
  intros Hid. unfold App.get_video_data.
  destruct url as [|a url]; [done|]. rewrite Hid.
  destruct id as [|b id]; [by apply extract_video_id_nonempty in Hid|].
  set (url' := String a url) in *. set (id' := String b id) in *.
  unfold calls at 1. unfold mbind, M_bind, bind.
  rewrite fill_video_info_run.
  unfold App.fill_transcript, try_except, mbind, M_bind, bind.
  rewrite api_get_transcript_run.
  pose proof (with_transcript_video_info w url' id') as (v & Hv & Htruthy).
  unfold with_transcript in Hv.
  destruct (outcome (api_get_transcript w id' App.ALL_LANGUAGES)) as [e|d];
    unfold App.mark_overall_failure, getitem; unfold_m; simpl;
    unfold initial_result in Hv; rewrite Hv; simpl;
    by destruct (_ && _).
Qed.

(** The whole run of Service A, by what the actor and the dataset do. *)
Lemma index_get_transcript_run (data : gmap string pyval) video_url :
  data !! "url" = Some video_url →
  let run_input := PDict {[ "urls" := PList [video_url] ]} in
  Index.get_transcript w (inr (PDict data)) []
  = match actor_call_of w run_input with
    | inl e =>
        (inr (Response 500 {[ "error" := PStr (exn_str e) ]}),
         [CallActor run_input])
    | inr run =>
        match outcome (subscript run "defaultDatasetId") with
        | inl e =>
            (inr (Response 500 {[ "error" := PStr (exn_str e) ]}),
             [CallActor run_input])
        | inr dataset_id =>
            match dataset_items_of w dataset_id with
            | inl e =>
                (inr (Response 500 {[ "error" := PStr (exn_str e) ]}),
                 [CallActor run_input; CallDataset dataset_id])
            | inr results =>
                (inr (jsonify {[ "dataset_id" := dataset_id;
                                 "transcript" := PList results ]}),
                 [CallActor run_input; CallDataset dataset_id])
            end
        end
    end.
Proof.
  intros Hurl run_input. unfold Index.get_transcript.
  assert (truthy (PDict data) = true) as Htruthy.
  { apply negb_true_iff, bool_decide_eq_false. intros ->.
    by rewrite lookup_empty in Hurl. }
  unfold contains, subscript at 1, getitem at 1. unfold_m. simpl in *.
  rewrite Htruthy, Hurl. simpl.
  unfold getitem. rewrite Hurl. simpl. fold run_input.
  destruct (actor_call_of w run_input) as [e|run]; [done|]. simpl.
  unfold subscript, getitem, outcome.
  destruct run as [| | | | | |d]; simpl; try done.
  destruct (d !! "defaultDatasetId") as [dataset_id|]; simpl; [|done].
  by destruct (dataset_items_of w dataset_id).
Qed.

(** Service A on a request without a [url]. *)
Lemma index_get_transcript_falsy v :
  truthy v = false →
  Index.get_transcript w (inr v) []
  = (inr (Response 400 {[ "error" := PStr "Missing YouTube video URL" ]}), []).
Proof.
  intros Hv. unfold Index.get_transcript. unfold_m. simpl. by rewrite Hv.
Qed.

Lemma index_get_transcript_no_url (data : gmap string pyval) :
  data !! "url" = None →
  Index.get_transcript w (inr (PDict data)) []
  = (inr (Response 400 {[ "error" := PStr "Missing YouTube video URL" ]}), []).
Proof.
  intros Hurl. unfold Index.get_transcript, contains. unfold_m. simpl.
  rewrite Hurl.
  rewrite (bool_decide_eq_false_2 (is_Some None)) by by intros [? ?].
  by destruct (negb (bool_decide (data = ∅))).
Qed.

(** Service A calls nothing when the request has no JSON object. *)
Lemma index_get_transcript_no_object request_json :
  (∀ data, request_json ≠ inr (PDict data)) →
  calls (Index.get_transcript w request_json) = [].
Proof.
  intros Hno. unfold calls, Index.get_transcript, contains, subscript.
  unfold_m. destruct request_json as [e|v]; [done|].
  destruct v as [|b|z|f|s|l|d]; simpl; try done.
  - by destruct b.
  - by destruct (negb (z =? 0)%Z).
  - by destruct (negb (PrimFloat.eqb f 0)).
  - destruct (negb (String.eqb s "")); [|done]. simpl.
    by destruct (Str.occurs "url" s).
  - destruct l as [|x l]; [done|]. simpl.
    by destruct (negb _).
  - by destruct (Hno d).
Qed.

End Runs.

(** [find_transcript] answers with the first listed code that is there. *)
Lemma find_transcript_head tl code codes t :
  manually_created tl !! code = Some t →
  find_transcript tl (code :: codes) = inr t.
Proof. intros H. simpl. by rewrite H. Qed.

Lemma find_transcript_first tl code codes t :
  find_transcript tl [code] = inr t →
  find_transcript tl (code :: codes) = inr t.
Proof.
  simpl. destruct (manually_created tl !! code); [done|].
  by destruct (generated tl !! code).
Qed.

Lemma find_transcript_none tl codes :
  (∀ code, code ∈ codes →
           manually_created tl !! code = None ∧ generated tl !! code = None) →
  find_transcript tl codes = inl (NoTranscriptFound (not_found_message tl)).
Proof.
  induction codes as [|code codes IH]; intros H; [done|]. simpl.
  destruct (H code (list_elem_of_here _ _)) as [-> ->]. apply IH.
  intros c Hc. apply H. by apply list_elem_of_further.
Qed.

Lemma find_transcript_listed tl codes code t :
  code ∈ codes →
  manually_created tl !! code = Some t ∨ generated tl !! code = Some t →
  ∃ t', find_transcript tl codes = inr t'.
Proof.
  induction codes as [|c codes IH]; intros Hin Ht; [by apply elem_of_nil in Hin|].
  simpl. destruct (manually_created tl !! c) as [t1|] eqn:Hm; [by eexists|].
  destruct (generated tl !! c) as [t2|] eqn:Hg; [by eexists|].
  apply IH; [|done]. apply elem_of_cons in Hin as [->|Hin]; [|done].
  destruct Ht; congruence.
Qed.

(** A text joined from captions is blank when every caption is. *)
Lemma all_isspace_join texts :
  Str.all Str.isspace (Str.join " " texts) = forallb (Str.all Str.isspace) texts.
Proof.
  induction texts as [|x [|y texts] IH]; [done|simpl; by rewrite andb_true_r|].
  change (Str.join " " (x :: y :: texts))
    with (x +:+ " " +:+ Str.join " " (y :: texts)).
  rewrite all_app, all_app, IH.
  by change (Str.all Str.isspace " ") with true.
Qed.

End RunFacts.

(** ** URLs that [extract_video_id] turns down *)

Module RejectFacts.
Import Str StrFacts.

Lemma run_rep_None {A} n c s g (k : string → groups → option A) :
  String.length s < n ∨ all (accepts c) (take n s) = false →
  run_rep n c s g k = None.
Proof.
  revert s. induction n as [|n IH]; intros s [Hlen|Hall]; simpl in *;
    try lia; try done.
  - destruct s as [|a s]; [done|]. destruct (accepts c a); [|done].
    apply IH. left. simpl in Hlen. lia.
  - destruct s as [|a s]; [done|]. simpl in Hall.
    destruct (accepts c a); [|done]. apply IH. by right.
Qed.

(** A literal whose end occurs nowhere in the string is not at its head. *)
Lemma strip_prefix_no_occurrence l1 l2 s :
  occurs l2 s = false → strip_prefix (l1 +:+ l2) s = None.
Proof.
  revert s. induction l1 as [|c l1 IH]; intros s Hocc.
  - by apply occurs_false_head.
  - rewrite app_String. simpl. destruct s as [|b s]; [done|].
    destruct (Ascii.eqb c b); [|done]. apply IH.
    by apply occurs_false_tail in Hocc.
Qed.

(** Without a marker and without eleven identifier characters, what follows
    the slash matches nothing. *)
Lemma run_path_None rest g (k : string → groups → option groups) :
  occurs "?v=" rest = false →
  strip_prefix "embed/" rest = None →
  strip_prefix "v/" rest = None →
  String.length rest < 11 ∨ all (accepts id_class) (take 11 rest) = false →
  run (Seq re_marker re_id) rest g k = None.
Proof.
  intros Hocc Hembed Hv Hid. unfold re_marker, re_id. cbn [run].
  rewrite (strip_prefix_no_occurrence "watch" "?v=") by done.
  rewrite Hembed, Hv.
  rewrite run_rep_None by done.
  destruct rest as [|a rest]; [done|].
  rewrite ExtractShapes.run_plus_no_occurrence; [done|].
  by apply occurs_false_tail in Hocc.
Qed.

(** The part of the pattern before the path has one way to read each base
    URL: when what follows fails, so does the whole match. *)
Lemma run_base_None {A} r scheme www host tld s g
  (k : string → groups → option A) :
  scheme ∈ schemes → www ∈ wwws → host ∈ hosts → tld ∈ tlds →
  (∀ g', run r s g' k = None) →
  run (Seq re_scheme (Seq re_www (Seq re_host (Seq (Lit ".")
         (Seq re_tld (Seq (Lit "/") r))))))
      (base_url scheme www host tld +:+ s) g k = None.
Proof.
  unfold schemes, wwws, hosts, tlds, base_url.
  intros Hs Hw Hh Ht Hr.
  cases_of Hs; cases_of Hw; cases_of Hh; cases_of Ht;
    rewrite ?app_assoc, ?app_String, ?app_Empty; simpl;
    by rewrite Hr.
Qed.

Lemma base_url_length scheme www host tld :
  scheme ∈ schemes → www ∈ wwws → host ∈ hosts → tld ∈ tlds →
  (9 ≤ String.length (base_url scheme www host tld))%nat.
Proof.
  unfold schemes, wwws, hosts, tlds, base_url. intros Hs Hw Hh Ht.
  cases_of Hs; cases_of Hw; cases_of Hh; cases_of Ht; simpl; lia.
Qed.

End RejectFacts.

(** X1: an input of fewer than 20 characters holds no identifier; the
    shortest URL that does is [youtu.be/] and eleven characters. *)
Theorem extract_video_id_short_input (url : string) :
  (String.length url < 20)%nat → extract_video_id url = None.
Proof.
  intros Hlen. destruct (extract_video_id url) as [id|] eqn:Hid; [|done].
  apply extract_video_id_Some in Hid
    as (Hid & _ & scheme & www & host & tld & marker & tail
        & Hs & Hw & Hh & Ht & ->).
  pose proof (RejectFacts.base_url_length _ _ _ _ Hs Hw Hh Ht).
  rewrite !length_app in Hlen. lia.
Qed.

Lemma extract_video_id_short_input_witness :
  (String.length "youtu.be/dQw4w9WgXc" < 20)%nat
  ∧ extract_video_id "youtu.be/dQw4w9WgXc" = None
  ∧ extract_video_id "youtu.be/dQw4w9WgXcQ" = Some sample_id.
Proof.
  split; [simpl; lia|]. split; [|reflexivity].
  apply (extract_video_id_short_input "youtu.be/dQw4w9WgXc"). simpl. lia.
Defined.

(** X2: an input that starts with any character but [h], [w] or [y] holds
    no identifier, whatever follows: leading blanks and the [m.] of the
    mobile site are not skipped. *)
Theorem extract_video_id_first_character (c : ascii) (url : string) :
  c ∉ ["h"; "w"; "y"]%char → extract_video_id (String c url) = None.
Proof. apply extract_video_id_first_char. Qed.

Lemma extract_video_id_first_character_witness :
  ("m"%char ∉ ["h"; "w"; "y"]%char)
  ∧ extract_video_id "m.youtube.com/watch?v=dQw4w9WgXcQ" = None.
Proof.
  assert ("m"%char ∉ ["h"; "w"; "y"]%char) as Hm.
  { intros H. refute_elem H. }
  split; [exact Hm|].
  apply (extract_video_id_first_character "m"
           ".youtube.com/watch?v=dQw4w9WgXcQ" Hm).
Defined.

(** X3: after a recognised base URL, a rest that has no [?v=], does not
    begin with [embed/] or [v/] and does not begin with eleven identifier
    characters holds no identifier.  A watch URL whose [v] is not the first
    query parameter is of that kind. *)
Theorem extract_video_id_query_not_first (scheme www host tld rest : string) :
  scheme ∈ schemes → www ∈ wwws → host ∈ hosts → tld ∈ tlds →
  Str.occurs "?v=" rest = false →
  Str.strip_prefix "embed/" rest = None →
  Str.strip_prefix "v/" rest = None →
  (String.length rest < 11)%nat
  ∨ Str.all (accepts id_class) (Str.take 11 rest) = false →
  extract_video_id (base_url scheme www host tld +:+ rest) = None.
Proof.
  intros Hs Hw Hh Ht Hocc Hembed Hv Hid.
  unfold extract_video_id, re_match, youtube_regex, re_path.
  rewrite RejectFacts.run_base_None; try done.
  intros g'. by apply RejectFacts.run_path_None.
Qed.

Lemma extract_video_id_query_not_first_witness :
  base_url "https://" "www." "youtube" "com"
    +:+ "watch?feature=share&v=dQw4w9WgXcQ"
  = "https://www.youtube.com/watch?feature=share&v=dQw4w9WgXcQ"
  ∧ extract_video_id
      "https://www.youtube.com/watch?feature=share&v=dQw4w9WgXcQ" = None.
Proof.
  split; [reflexivity|].
  apply (extract_video_id_query_not_first "https://" "www." "youtube" "com"
           "watch?feature=share&v=dQw4w9WgXcQ"
           ltac:(repeat constructor) ltac:(repeat constructor)
           ltac:(repeat constructor) ltac:(repeat constructor)
           eq_refl eq_refl eq_refl (or_intror eq_refl)).
Defined.

(** ** More on [/api/transcript] *)

Module TranscriptFacts.
Import Str StrFacts.

Section Answers.
Context (w : world).

(** The answers [/api/transcript] can give. *)
Lemma get_transcript_answers url :
  ∃ r, outcome (App.get_transcript w url) = inr r
       ∧ (r = App.missing_url ∨ r = App.invalid_url
          ∨ (∃ e, r = App.transcript_failure e)
          ∨ (∃ video,
               r = Response 404 {[ "success" := PBool false;
                                   "error" := PStr "Transcript is empty";
                                   "video" := video ]})
          ∨ (∃ video full_text,
               r = Response 200 {[ "success" := PBool true;
                                   "video" := video;
                                   "transcript" := PStr full_text ]})).
Proof.
  destruct url as [url|]; [|eexists; split; [done|by left]].
  destruct (extract_video_id url) as [id|] eqn:Hid.
  - destruct (outcome (App.fetch_full_text w id)) as [e|full_text] eqn:Ht.
    + rewrite (get_transcript_captions_failed w _ _ _ Hid Ht).
      eexists. split; [done|]. right. right. left. by eexists.
    + rewrite (get_transcript_captions_fetched w _ _ _ Hid Ht).
      eexists. split; [done|]. do 3 right.
      destruct (App.blank full_text); [left; by eexists|right; by eexists _, _].
  - unfold outcome. rewrite (get_transcript_not_found w _ Hid). simpl.
    eexists. split; [done|]. destruct (String.eqb url ""); auto.
Qed.

Lemma fetch_full_text_fetched_calls id full_text :
  outcome (App.fetch_full_text w id) = inr full_text →
  ∃ language,
    calls (App.fetch_full_text w id) = [CallListTranscripts id; CallFetch language].
Proof.
  rewrite RunFacts.fetch_full_text_calls.
  unfold App.fetch_full_text, list_transcripts, fetch. unfold_m.
  destruct (list_transcripts_of w id) as [e|tl]; [done|]. simpl.
  destruct (manually_created tl !! "en") as [t|]; simpl; [by eexists|].
  destruct (generated tl !! "en") as [t|]; simpl; [by eexists|done].
Qed.

End Answers.
End TranscriptFacts.

(** X4: when the captions retrieval of [/api/transcript] raises, the
    request is answered without the metadata extractor being called. *)
Theorem captions_failure_skips_metadata (w : world) (url id : string) (e : exn) :
  extract_video_id url = Some id →
  outcome (App.fetch_full_text w id) = inl e →
  calls (App.get_transcript w (Some url)) = calls (App.fetch_full_text w id)
  ∧ ∀ u, CallExtractInfo u ∉ calls (App.get_transcript w (Some url)).
Proof.
  intros Hid He. rewrite (RunFacts.get_transcript_calls w _ _ Hid), He.
  rewrite app_nil_r. split; [done|]. intros u H.
  rewrite RunFacts.fetch_full_text_calls in H.
  destruct (list_transcripts_of w id) as [?|tl]; [refute_elem H|].
  destruct (find_transcript tl ["en"]); refute_elem H.
Qed.

Lemma captions_failure_skips_metadata_witness :
  let w := world_of (inr german_only) (inl (OtherException "Video unavailable")) in
  extract_video_id sample_url = Some sample_id
  ∧ calls (App.get_transcript w (Some sample_url))
    = [CallListTranscripts sample_id].
Proof.
  intros w. split; [reflexivity|].
  destruct (captions_failure_skips_metadata w sample_url sample_id
              (NoTranscriptFound (not_found_message german_only))
              eq_refl eq_refl) as [Hcalls _].
  rewrite Hcalls. reflexivity.
Defined.

(** X5: when the captions are fetched, [/api/transcript] has made three
    calls, in this order: the listing, the fetch of one transcript, and the
    metadata extractor on the URL as given.  The extractor is called also
    when the text turns out blank. *)
Theorem metadata_fetched_after_captions (w : world) (url id full_text : string) :
  extract_video_id url = Some id →
  outcome (App.fetch_full_text w id) = inr full_text →
  ∃ language,
    calls (App.get_transcript w (Some url))
    = [CallListTranscripts id; CallFetch language; CallExtractInfo url].
Proof.
  intros Hid Ht. rewrite (RunFacts.get_transcript_calls w _ _ Hid), Ht.
  destruct (TranscriptFacts.fetch_full_text_fetched_calls w _ _ Ht)
    as [language ->].
  by exists language.
Qed.

Lemma metadata_fetched_after_captions_witness :
  let w := world_of (inr silent_english) (inr sample_info) in
  extract_video_id sample_url = Some sample_id
  ∧ outcome (App.fetch_full_text w sample_id) = inr "  "
  ∧ calls (App.get_transcript w (Some sample_url))
    = [CallListTranscripts sample_id; CallFetch "en"; CallExtractInfo sample_url].
Proof.
  intros w. split; [reflexivity|]. split; [reflexivity|].
  destruct (metadata_fetched_after_captions w sample_url sample_id "  "
              eq_refl eq_refl) as [language Hcalls].
  reflexivity.
Defined.

(** X6: when the captions are fetched with a text that is not blank and
    the extractor answers, [/api/transcript] answers 200 with a video record
    of exactly seven fields.  A field the extractor left out gets its
    default ("Unknown Title", the empty string, or "0"); [duration], [views]
    and [likes] are always strings (the [str] of what the extractor gave,
    "None" for a null), the other four are passed on as they are. *)
Theorem transcript_video_record (w : world) (url id full_text : string)
  (info : gmap string scalar) :
  extract_video_id url = Some id →
  outcome (App.fetch_full_text w id) = inr full_text →
  Str.all Str.isspace full_text = false →
  extract_info_of w url = inr info →
  ∃ video,
    outcome (App.get_transcript w (Some url))
    = inr (Response 200 {[ "success" := PBool true;
                           "video" := PDict video;
                           "transcript" := PStr full_text ]})
    ∧ dom video
      = list_to_set ["title"; "thumbnail"; "duration"; "views";
                     "upload_date"; "channel"; "likes"]
    ∧ video !! "title"
      = Some (from_option of_scalar (PStr "Unknown Title") (info !! "title"))
    ∧ video !! "thumbnail"
      = Some (from_option of_scalar (PStr "") (info !! "thumbnail"))
    ∧ video !! "duration"
      = Some (PStr (from_option py_str "0" (info !! "duration")))
    ∧ video !! "views"
      = Some (PStr (from_option py_str "0" (info !! "view_count")))
    ∧ video !! "upload_date"
      = Some (from_option of_scalar (PStr "") (info !! "upload_date"))
    ∧ video !! "channel"
      = Some (from_option of_scalar (PStr "") (info !! "channel"))
    ∧ video !! "likes"
      = Some (PStr (from_option py_str "0" (info !! "like_count"))).
Proof.
  intros Hid Ht Hblank Hinfo.
  rewrite (get_transcript_captions_fetched w _ _ _ Hid Ht).
  rewrite blank_all_space, Hblank, Hinfo. unfold App.video_details_of.
  eexists. split; [reflexivity|]. unfold dict_get.
  split; [rewrite !dom_insert_L, dom_singleton_L; simpl;
          by rewrite (right_id_L ∅ (∪))|].
  repeat split; simplify_map_eq; by destruct (info !! _).
Qed.

Lemma transcript_video_record_witness :
  let w := world_of (inr english_only) (inr sample_info) in
  extract_video_id sample_url = Some sample_id
  ∧ outcome (App.fetch_full_text w sample_id) = inr "a b"
  ∧ ∃ video r,
      outcome (App.get_transcript w (Some sample_url)) = inr r
      ∧ body r !! "video" = Some (PDict video)
      ∧ video !! "duration" = Some (PStr "212")
      ∧ video !! "likes" = Some (PStr "0").
Proof.
  intros w. split; [reflexivity|]. split; [reflexivity|].
  destruct (transcript_video_record w sample_url sample_id "a b" sample_info
              eq_refl eq_refl eq_refl eq_refl)
    as (video & Hr & _ & _ & _ & Hduration & _ & _ & _ & Hlikes).
  exists video. eexists. split; [exact Hr|]. split; [reflexivity|].
  split; [exact Hduration|exact Hlikes].
Defined.

(** X7: with the captions of the English transcript fetched,
    [/api/transcript] answers 404 "Transcript is empty" exactly when every
    caption is empty or whitespace (so also when there is no caption at
    all), and 200 otherwise. *)
Theorem transcript_empty_iff_all_captions_blank (w : world) (url id : string)
  (tl : transcript_list) (t : transcript) (parts : list segment) :
  extract_video_id url = Some id →
  list_transcripts_of w id = inr tl →
  find_transcript tl ["en"] = inr t →
  fetched t = inr parts →
  ∃ r, outcome (App.get_transcript w (Some url)) = inr r
       ∧ status r
         = (if forallb (λ p, Str.all Str.isspace (seg_text p)) parts
            then 404 else 200)
       ∧ body r !! "error"
         = (if forallb (λ p, Str.all Str.isspace (seg_text p)) parts
            then Some (PStr "Transcript is empty") else None).
Proof.
  intros Hid Hl Hen Hparts.
  assert (outcome (App.fetch_full_text w id)
          = inr (Str.join " " (seg_text <$> parts))) as Htext.
  { rewrite (fetch_full_text_english w _ _ _ Hl Hen). by rewrite Hparts. }
  rewrite (get_transcript_captions_fetched w _ _ _ Hid Htext).
  rewrite blank_all_space, RunFacts.all_isspace_join.
  replace (forallb (Str.all Str.isspace) (seg_text <$> parts))
    with (forallb (λ p, Str.all Str.isspace (seg_text p)) parts)
    by (clear; induction parts as [|p parts IH]; [done|];
        rewrite fmap_cons; simpl; by rewrite IH).
  destruct (forallb _ parts); eexists; (split; [done|]);
    simpl; by simplify_map_eq.
Qed.

Lemma transcript_empty_iff_all_captions_blank_witness :
  let w := world_of (inr (TranscriptList sample_id
                            {[ "en" := Transcript "en" (inr []) ]} ∅))
                    (inr sample_info) in
  extract_video_id sample_url = Some sample_id
  ∧ ∃ r, outcome (App.get_transcript w (Some sample_url)) = inr r
         ∧ status r = 404.
Proof.
  intros w. split; [reflexivity|].
  destruct (transcript_empty_iff_all_captions_blank w sample_url sample_id
              (TranscriptList sample_id {[ "en" := Transcript "en" (inr []) ]} ∅)
              (Transcript "en" (inr [])) [] eq_refl eq_refl eq_refl eq_refl)
    as (r & Hr & Hstatus & _).
  exists r. split; [exact Hr|exact Hstatus].
Defined.

(** ** The envelope of Service B *)

Module EnvelopeFacts.

Lemma error_response_error code message :
  body (App.error_response code message) !! "error" = Some (PStr message).
Proof. unfold App.error_response. simpl. by simplify_map_eq. Qed.

Lemma transcript_failure_error e :
  is_Some (body (App.transcript_failure e) !! "error")
  ∧ (status (App.transcript_failure e) = 404
     ∨ status (App.transcript_failure e) = 500).
Proof.
  destruct e; simpl; (split; [by simplify_map_eq|]); auto.
Qed.

Lemma error_response_fields code message :
  status (App.error_response code message) = code
  ∧ body (App.error_response code message) !! "success" = Some (PBool false)
  ∧ is_Some (body (App.error_response code message) !! "error").
Proof. unfold App.error_response. simpl. by simplify_map_eq. Qed.

Section Answers.
Context (w : world).

(** The answers [/api/video-info] can give. *)
Lemma get_video_info_answers url :
  ∃ r, outcome (App.get_video_info w url) = inr r
       ∧ (r = App.missing_url
          ∨ (∃ e, r = App.error_response 500 (exn_str e))
          ∨ (status r = 200 ∧ body r !! "success" = Some (PBool true)
             ∧ body r !! "error" = None)).
Proof.
  unfold App.get_video_info.
  destruct url as [[|a url]|]; try (eexists; split; [done|by left]).
  unfold download_info. unfold_m.
  destruct (extract_info_of w (String a url)) as [e|info]; simpl;
    eexists; (split; [done|]); right; [left; by eexists|right].
  simpl. by simplify_map_eq.
Qed.

(** The answers [/api/video-data] can give. *)
Lemma get_video_data_answers url :
  ∃ r, outcome (App.get_video_data w url) = inr r
       ∧ (r = App.missing_url ∨ r = App.invalid_url
          ∨ (∃ u id, url = Some u ∧ extract_video_id u = Some id
                     ∧ r = jsonify (final_result w u id))).
Proof.
  destruct url as [url|]; [|eexists; split; [done|by left]].
  destruct (extract_video_id url) as [id|] eqn:Hid.
  - destruct (get_video_data_found w _ _ Hid) as (-> & _).
    eexists. split; [done|]. right. right. by exists url, id.
  - unfold outcome. rewrite (get_video_data_not_found w _ Hid). simpl.
    eexists. split; [done|]. destruct (String.eqb url ""); auto.
Qed.

End Answers.
End EnvelopeFacts.

(** X8: in every answer of the three endpoints of Service B, [success]
    is false exactly when the body has an [error] field. *)
Theorem success_false_iff_error (w : world) (url : option string) :
  (∃ r, outcome (App.get_transcript w url) = inr r
        ∧ (body r !! "success" = Some (PBool false)
           ↔ is_Some (body r !! "error")))
  ∧ (∃ r, outcome (App.get_video_info w url) = inr r
          ∧ (body r !! "success" = Some (PBool false)
             ↔ is_Some (body r !! "error")))
  ∧ (∃ r, outcome (App.get_video_data w url) = inr r
          ∧ (body r !! "success" = Some (PBool false)
             ↔ is_Some (body r !! "error"))).
Proof.
  split; [|split].
  - destruct (TranscriptFacts.get_transcript_answers w url)
      as (r & Hr & [->|[->|[[e ->]|[[v ->]|(v & t & ->)]]]]);
      eexists; (split; [exact Hr|]).
    1-2: unfold App.missing_url, App.invalid_url;
         match goal with
         | |- context [App.error_response ?c ?m] =>
             by destruct (EnvelopeFacts.error_response_fields c m)
                  as (_ & -> & ?)
         end.
    + rewrite transcript_failure_success.
      pose proof (EnvelopeFacts.transcript_failure_error e) as [? _]. done.
    + simpl. by simplify_map_eq.
    + simpl. simplify_map_eq. split; [done|]. by intros [? ?].
  - destruct (EnvelopeFacts.get_video_info_answers w url)
      as (r & Hr & [->|[[e ->]|(_ & Hs & He)]]);
      eexists; (split; [exact Hr|]).
    1-2: unfold App.missing_url, App.invalid_url;
         match goal with
         | |- context [App.error_response ?c ?m] =>
             by destruct (EnvelopeFacts.error_response_fields c m)
                  as (_ & -> & ?)
         end.
    rewrite Hs, He. split; [done|]. by intros [? ?].
  - destruct (EnvelopeFacts.get_video_data_answers w url)
      as (r & Hr & [->|[->|(u & id & _ & _ & ->)]]);
      eexists; (split; [exact Hr|]).
    1-2: unfold App.missing_url, App.invalid_url;
         match goal with
         | |- context [App.error_response ?c ?m] =>
             by destruct (EnvelopeFacts.error_response_fields c m)
                  as (_ & -> & ?)
         end.
    simpl. rewrite final_result_success, final_result_error.
    destruct (extract_info_of w u); [done|].
    split; [done|]. by intros [? ?].
Qed.

(** X9: [/api/transcript] and [/api/video-info] answer with one of the
    statuses 200, 400, 404 and 500 ([/api/video-info] never with 404), and
    with 200 exactly when [success] is true. *)
Theorem status_200_iff_success (w : world) (url : option string) :
  (∃ r, outcome (App.get_transcript w url) = inr r
        ∧ status r ∈ [200; 400; 404; 500]
        ∧ (status r = 200 ↔ body r !! "success" = Some (PBool true)))
  ∧ (∃ r, outcome (App.get_video_info w url) = inr r
          ∧ status r ∈ [200; 400; 500]
          ∧ (status r = 200 ↔ body r !! "success" = Some (PBool true))).
Proof.
  split.
  - destruct (TranscriptFacts.get_transcript_answers w url)
      as (r & Hr & [->|[->|[[e ->]|[[v ->]|(v & t & ->)]]]]);
      eexists; (split; [exact Hr|]).
    1-2: unfold App.missing_url, App.invalid_url;
         match goal with
         | |- context [App.error_response ?c ?m] =>
             destruct (EnvelopeFacts.error_response_fields c m)
               as (-> & -> & ?)
         end; by split; [compute_done|].
    + rewrite transcript_failure_success.
      destruct e; (split; [compute_done|done]).
    + split; [compute_done|]. simpl. by simplify_map_eq.
    + split; [compute_done|]. simpl. by simplify_map_eq.
  - destruct (EnvelopeFacts.get_video_info_answers w url)
      as (r & Hr & [->|[[e ->]|(Hst & Hs & _)]]);
      eexists; (split; [exact Hr|]).
    1-2: unfold App.missing_url, App.invalid_url;
         match goal with
         | |- context [App.error_response ?c ?m] =>
             destruct (EnvelopeFacts.error_response_fields c m)
               as (-> & -> & ?)
         end; by split; [compute_done|].
    rewrite Hst, Hs. by split; [compute_done|].
Qed.

(** X10: [/api/video-data] answers 400 when the URL is missing or holds no
    identifier and 200 in every other case, whatever the providers do: the
    failures of its providers are told in the body only. *)
Theorem video_data_status (w : world) (url : option string) :
  ∃ r, outcome (App.get_video_data w url) = inr r
       ∧ (status r = 200 ∨ status r = 400)
       ∧ (status r = 200
          ↔ ∃ u id, url = Some u ∧ extract_video_id u = Some id).
Proof.
  destruct (EnvelopeFacts.get_video_data_answers w url)
    as (r & Hr & Hcases).
  exists r. split; [exact Hr|].
  assert (status r = 400 →
          ¬ ∃ u id, url = Some u ∧ extract_video_id u = Some id) as Hnot.
  { intros H400 (u & id & -> & Hid).
    destruct (get_video_data_found w _ _ Hid) as (Hr' & _).
    rewrite Hr in Hr'. injection Hr' as ->. done. }
  destruct Hcases as [->|[->|(u & id & -> & Hid & ->)]]; simpl in *.
  - split; [by right|]. split; [done|]. intros H. by destruct Hnot.
  - split; [by right|]. split; [done|]. intros H. by destruct Hnot.
  - split; [by left|]. split; [by eauto|done].
Qed.

(** ** Requests without a URL *)

(** X11: a request to any endpoint of Service B whose [url] parameter is
    absent or empty is answered 400 "Missing URL parameter" at once: no
    identifier is looked for and no provider is called. *)
Theorem missing_url_parameter (w : world) (url : option string) :
  url = None ∨ url = Some "" →
  let answer :=
    (inr (Response 400 {[ "success" := PBool false;
                          "error" := PStr "Missing URL parameter" ]}),
     @nil call) in
  App.get_transcript w url [] = answer
  ∧ App.get_video_info w url [] = answer
  ∧ App.get_video_data w url [] = answer.
Proof. by intros [->| ->]. Qed.

Lemma missing_url_parameter_witness :
  App.get_video_info metadata_down (Some "") []
  = (inr App.missing_url, []).
Proof.
  apply (missing_url_parameter metadata_down (Some "") (or_intror eq_refl)).
Defined.

(** ** [/api/video-info] *)

(** X12: for any URL that is not empty, YouTube's or not, when the
    extractor answers, [/api/video-info] answers 200 with [success] true and
    six fields, each the extractor's value or null when the extractor left it
    out; the extractor has been called once, on the URL as given, and nothing
    else has. *)
Theorem video_info_success (w : world) (url : string)
  (info : gmap string scalar) :
  url ≠ "" →
  extract_info_of w url = inr info →
  ∃ r,
    App.get_video_info w (Some url) [] = (inr r, [CallExtractInfo url])
    ∧ status r = 200
    ∧ dom (body r)
      = list_to_set ["success"; "video_id"; "title"; "thumbnail"; "duration";
                     "channel"; "upload_date"]
    ∧ body r !! "success" = Some (PBool true)
    ∧ body r !! "video_id" = Some (from_option of_scalar PNone (info !! "id"))
    ∧ ∀ key, key ∈ ["title"; "thumbnail"; "duration"; "channel"; "upload_date"] →
             body r !! key = Some (from_option of_scalar PNone (info !! key)).
Proof.
  intros Hne Hinfo. unfold App.get_video_info.
  destruct url as [|a url]; [done|].
  unfold download_info. unfold_m. rewrite Hinfo. simpl.
  eexists. split; [reflexivity|]. split; [done|]. unfold dict_get. simpl.
  split; [rewrite !dom_insert_L, dom_singleton_L; simpl;
          by rewrite (right_id_L ∅ (∪))|].
  split; [by simplify_map_eq|]. split.
  - simplify_map_eq. by destruct (info !! "id").
  - intros key Hkey. cases_of Hkey; simplify_map_eq; by destruct (info !! _).
Qed.

Lemma video_info_success_witness :
  let w := world_of (inl (VideoUnavailable "gone")) (inr sample_info) in
  "https://vimeo.com/76979871" ≠ ""
  ∧ extract_video_id "https://vimeo.com/76979871" = None
  ∧ ∃ r, outcome (App.get_video_info w (Some "https://vimeo.com/76979871"))
         = inr r
         ∧ body r !! "video_id" = Some (PStr sample_id)
         ∧ body r !! "channel" = Some PNone.
Proof.
  intros w. split; [done|]. split; [reflexivity|].
  destruct (video_info_success w "https://vimeo.com/76979871" sample_info
              ltac:(done) eq_refl)
    as (r & Hr & _ & _ & _ & Hid & Hkeys).
  exists r. unfold outcome. rewrite Hr. split; [reflexivity|].
  split; [exact Hid|].
  apply (Hkeys "channel"). repeat constructor.
Defined.

(** X13: for any URL that is not empty, when the extractor raises,
    [/api/video-info] answers 500 with [success] false and the exception's
    message as the error. *)
Theorem video_info_failure (w : world) (url : string) (e : exn) :
  url ≠ "" →
  extract_info_of w url = inl e →
  App.get_video_info w (Some url) []
  = (inr (Response 500 {[ "success" := PBool false;
                          "error" := PStr (exn_str e) ]}),
     [CallExtractInfo url]).
Proof.
  intros Hne He. unfold App.get_video_info.
  destruct url as [|a url]; [done|].
  unfold download_info. unfold_m. by rewrite He.
Qed.

Lemma video_info_failure_witness :
  sample_url ≠ ""
  ∧ outcome (App.get_video_info metadata_down (Some sample_url))
    = inr (App.error_response 500 "Video unavailable").
Proof.
  split; [done|]. unfold outcome.
  rewrite (video_info_failure metadata_down sample_url
             (OtherException "Video unavailable") ltac:(done) eq_refl).
  reflexivity.
Defined.

(** ** More on [/api/video-data] *)

(** X14: once the identifier is found, [/api/video-data] calls the
    metadata extractor first, on the URL as given, then lists the
    transcripts of the identifier, then fetches the transcript found, if one
    was: at most three calls, whatever fails. *)
Theorem video_data_call_order (w : world) (url id : string) :
  extract_video_id url = Some id →
  calls (App.get_video_data w (Some url))
  = CallExtractInfo url :: CallListTranscripts id
      :: match list_transcripts_of w id with
         | inr tl =>
             match find_transcript tl App.ALL_LANGUAGES with
             | inr t => [CallFetch (language_code t)]
             | inl _ => []
             end
         | inl _ => []
         end.
Proof.
  intros Hid. rewrite (RunFacts.get_video_data_calls w _ _ Hid).
  by rewrite RunFacts.api_get_transcript_calls_explicit.
Qed.

Lemma video_data_call_order_witness :
  extract_video_id sample_url = Some sample_id
  ∧ calls (App.get_video_data metadata_down (Some sample_url))
    = [CallExtractInfo sample_url; CallListTranscripts sample_id; CallFetch "en"].
Proof.
  split; [reflexivity|].
  rewrite (video_data_call_order metadata_down sample_url sample_id eq_refl).
  reflexivity.
Defined.

(** X15: the [video_info] of [/api/video-data] is, when the extractor
    raised, a record of two fields only, the title "Video " with the
    identifier and the thumbnail on i.ytimg.com, and, when it answered, a
    record of eight fields, each the extractor's value or null. *)
Theorem video_data_video_info (w : world) (url id : string) :
  extract_video_id url = Some id →
  ∃ r video_info,
    outcome (App.get_video_data w (Some url)) = inr r
    ∧ body r !! "video_info" = Some (PDict video_info)
    ∧ match extract_info_of w url with
      | inl _ =>
          video_info
          = {[ "title" := PStr ("Video " +:+ id);
               "thumbnail" :=
                 PStr ("https://i.ytimg.com/vi/" +:+ id +:+ "/hqdefault.jpg") ]}
      | inr info =>
          dom video_info
          = list_to_set ["title"; "thumbnail"; "duration"; "views";
                         "upload_date"; "channel"; "likes"; "description"]
          ∧ video_info !! "views"
            = Some (from_option of_scalar PNone (info !! "view_count"))
          ∧ video_info !! "likes"
            = Some (from_option of_scalar PNone (info !! "like_count"))
          ∧ ∀ key, key ∈ ["title"; "thumbnail"; "duration"; "upload_date";
                          "channel"; "description"] →
                   video_info !! key
                   = Some (from_option of_scalar PNone (info !! key))
      end.
Proof.
  intros Hid. destruct (get_video_data_found w _ _ Hid) as (Hr & _).
  pose proof (final_result_video_info w url id) as Hv.
  destruct (extract_info_of w url) as [e|info];
    unfold App.minimal_video_info, App.video_info_of in Hv;
    eexists _, _; (split; [exact Hr|]); (split; [exact Hv|]); [done|].
  unfold dict_get.
  split; [rewrite !dom_insert_L, dom_singleton_L; simpl;
          by rewrite (right_id_L ∅ (∪))|].
  split; [simplify_map_eq; by destruct (info !! _)|].
  split; [simplify_map_eq; by destruct (info !! _)|].
  intros key Hkey. cases_of Hkey; simplify_map_eq; by destruct (info !! _).
Qed.

Lemma video_data_video_info_witness :
  extract_video_id sample_url = Some sample_id
  ∧ ∃ r, outcome (App.get_video_data metadata_down (Some sample_url)) = inr r
         ∧ body r !! "video_info"
           = Some (PDict {[ "title" := PStr "Video dQw4w9WgXcQ";
                            "thumbnail" :=
                              PStr "https://i.ytimg.com/vi/dQw4w9WgXcQ/hqdefault.jpg" ]}).
Proof.
  split; [reflexivity|].
  destruct (video_data_video_info metadata_down sample_url sample_id eq_refl)
    as (r & video_info & Hr & Hinfo & Hrecord).
  exists r. split; [exact Hr|]. rewrite Hinfo.
  simpl in Hrecord. rewrite Hrecord. reflexivity.
Defined.

(** X16: the top-level [error] of [/api/video-data] is there exactly when
    the metadata extractor raised, and then it reads "Failed to retrieve
    both video information and transcript", also when the captions were
    fetched: the key [transcript_error] is in the body in every case, null
    when the captions were fetched. *)
Theorem video_data_error_field (w : world) (url id : string) :
  extract_video_id url = Some id →
  ∃ r,
    outcome (App.get_video_data w (Some url)) = inr r
    ∧ is_Some (body r !! "transcript_error")
    ∧ body r !! "error"
      = match extract_info_of w url with
        | inl _ =>
            Some (PStr "Failed to retrieve both video information and transcript")
        | inr _ => None
        end.
Proof.
  intros Hid. destruct (get_video_data_found w _ _ Hid) as (Hr & _).
  eexists. split; [exact Hr|]. simpl.
  rewrite final_result_transcript_error, final_result_error. by split.
Qed.

Lemma video_data_error_field_witness :
  extract_video_id sample_url = Some sample_id
  ∧ outcome (api_get_transcript metadata_down sample_id App.ALL_LANGUAGES)
    = inr sample_segments
  ∧ ∃ r, outcome (App.get_video_data metadata_down (Some sample_url)) = inr r
         ∧ body r !! "error"
           = Some (PStr "Failed to retrieve both video information and transcript").
Proof.
  split; [reflexivity|]. split; [reflexivity|].
  destruct (video_data_error_field metadata_down sample_url sample_id eq_refl)
    as (r & Hr & _ & Herror).
  exists r. split; [exact Hr|exact Herror].
Defined.

(** X17: [/api/video-data] asks for the languages in the order of
    [ALL_LANGUAGES], which starts with Afrikaans, while [/api/transcript]
    asks for English: for a video with an Afrikaans and an English
    transcript, each manually created or generated, the first endpoint
    returns the Afrikaans captions and the second the English ones. *)
Theorem endpoints_choose_different_languages (w : world) (url id : string)
  (tl : transcript_list) (t_af t_en : transcript)
  (parts_af parts_en : list segment) :
  extract_video_id url = Some id →
  list_transcripts_of w id = inr tl →
  find_transcript tl ["af"] = inr t_af →
  fetched t_af = inr parts_af →
  find_transcript tl ["en"] = inr t_en →
  fetched t_en = inr parts_en →
  outcome (App.fetch_full_text w id)
  = inr (Str.join " " (seg_text <$> parts_en))
  ∧ ∃ r, outcome (App.get_video_data w (Some url)) = inr r
         ∧ body r !! "transcript" = Some (PList (segment_json <$> parts_af))
         ∧ body r !! "transcript_text" = Some (PStr (App.plain_text_of parts_af)).
Proof.
  intros Hid Hl Haf Hparts_af Hen Hparts_en. split.
  - by rewrite (fetch_full_text_english w _ _ t_en Hl Hen), Hparts_en.
  - assert (find_transcript tl App.ALL_LANGUAGES = inr t_af) as Hfind
      by (unfold App.ALL_LANGUAGES; by apply RunFacts.find_transcript_first).
    destruct (get_video_data_found w _ _ Hid) as (Hr & _).
    eexists. split; [exact Hr|]. simpl.
    rewrite final_result_transcript, final_result_transcript_text.
    by rewrite (api_get_transcript_fetched w _ _ _ _ Hl Hfind), Hparts_af.
Qed.

Lemma endpoints_choose_different_languages_witness :
  let w := world_of (inr auto_english) (inr sample_info) in
  extract_video_id sample_url = Some sample_id
  ∧ manually_created auto_english !! "af"
    = Some (Transcript "af" (inr afrikaans_segments))
  ∧ manually_created auto_english !! "en" = None
  ∧ generated auto_english !! "en"
    = Some (Transcript "en" (inr sample_segments))
  ∧ outcome (App.fetch_full_text w sample_id) = inr "a b"
  ∧ ∃ r, outcome (App.get_video_data w (Some sample_url)) = inr r
         ∧ body r !! "transcript_text" = Some (PStr "0.00 - 1.00: hallo").
Proof.
  intros w. repeat (split; [reflexivity|]).
  destruct (endpoints_choose_different_languages w sample_url sample_id
              auto_english (Transcript "af" (inr afrikaans_segments))
              (Transcript "en" (inr sample_segments))
              afrikaans_segments sample_segments
              eq_refl eq_refl eq_refl eq_refl eq_refl eq_refl)
    as (_ & r & Hr & _ & Htext).
  exists r. split; [exact Hr|exact Htext].
Defined.

(** X18: when none of the codes of [ALL_LANGUAGES] has a transcript (a
    video whose only transcript has a regional code, say), [/api/video-data]
    fetches nothing and answers with a null [transcript], no
    [transcript_text] and the [transcript_error] "No transcript found for
    this video in any supported language". *)
Theorem unlisted_languages_are_not_found (w : world) (url id : string)
  (tl : transcript_list) :
  extract_video_id url = Some id →
  list_transcripts_of w id = inr tl →
  (∀ code, code ∈ App.ALL_LANGUAGES →
           manually_created tl !! code = None ∧ generated tl !! code = None) →
  calls (App.get_video_data w (Some url))
  = [CallExtractInfo url; CallListTranscripts id]
  ∧ ∃ r, outcome (App.get_video_data w (Some url)) = inr r
         ∧ body r !! "transcript" = Some PNone
         ∧ body r !! "transcript_text" = None
         ∧ body r !! "transcript_error"
           = Some (PStr "No transcript found for this video in any supported language").
Proof.
  intros Hid Hl Hnone.
  pose proof (RunFacts.find_transcript_none tl _ Hnone) as Hfind.
  assert (outcome (api_get_transcript w id App.ALL_LANGUAGES)
          = inl (NoTranscriptFound (not_found_message tl))) as Hcaptions.
  { unfold api_get_transcript, list_transcripts, fetch. unfold_m.
    rewrite Hl. cbn -[find_transcript App.ALL_LANGUAGES]. by rewrite Hfind. }
  split.
  - rewrite (RunFacts.get_video_data_calls w _ _ Hid).
    rewrite RunFacts.api_get_transcript_calls_explicit. by rewrite Hl, Hfind.
  - destruct (get_video_data_found w _ _ Hid) as (Hr & _).
    eexists. split; [exact Hr|]. simpl.
    rewrite final_result_transcript, final_result_transcript_text,
      final_result_transcript_error.
    by rewrite Hcaptions.
Qed.

Lemma unlisted_languages_are_not_found_witness :
  let w := world_of (inr regional_only) (inr sample_info) in
  extract_video_id sample_url = Some sample_id
  ∧ is_Some (manually_created regional_only !! "en-US")
  ∧ calls (App.get_video_data w (Some sample_url))
    = [CallExtractInfo sample_url; CallListTranscripts sample_id].
Proof.
  intros w. split; [reflexivity|]. split; [by eexists|].
  assert (∀ code, code ∈ App.ALL_LANGUAGES →
                  manually_created regional_only !! code = None
                  ∧ generated regional_only !! code = None) as Hnone.
  { intros code Hcode. unfold App.ALL_LANGUAGES in Hcode.
    cases_of Hcode; split; reflexivity. }
  destruct (unlisted_languages_are_not_found w sample_url sample_id
              regional_only eq_refl eq_refl Hnone) as [Hcalls _].
  exact Hcalls.
Defined.

(** ** Service A *)

(** X19: when [request.get_json()] gives Service A a falsy value (null,
    false, zero, an empty string, list or object) or an object that has no
    [url] key, the request is answered 400 with the error "Missing YouTube
    video URL", and Apify is not called. *)
Theorem index_missing_url (w : world) (data : pyval) :
  truthy data = false ∨ (∃ d, data = PDict d ∧ d !! "url" = None) →
  Index.get_transcript w (inr data) []
  = (inr (Response 400 {[ "error" := PStr "Missing YouTube video URL" ]}), []).
Proof.
  intros [Hfalsy|(d & -> & Hurl)].
  - by apply RunFacts.index_get_transcript_falsy.
  - by apply RunFacts.index_get_transcript_no_url.
Qed.

Lemma index_missing_url_witness :
  Index.get_transcript metadata_down
    (inr (PDict {[ "video" := PStr sample_url ]})) []
  = (inr (Response 400 {[ "error" := PStr "Missing YouTube video URL" ]}), [])
  ∧ Index.get_transcript metadata_down (inr PNone) []
    = (inr (Response 400 {[ "error" := PStr "Missing YouTube video URL" ]}), []).
Proof.
  split.
  - apply (index_missing_url metadata_down).
    right. eexists. split; reflexivity.
  - apply (index_missing_url metadata_down). by left.
Defined.

(** X20: when the body has a [url], the actor run answers with an object
    that has a [defaultDatasetId], and the dataset can be read, Service A
    answers 200 with that identifier and the items of the dataset as they
    are; it has run the actor on [{"urls": [url]}] and then read that
    dataset, and called nothing else. *)
Theorem index_relays_dataset (w : world) (data run : gmap string pyval)
  (video_url dataset_id : pyval) (results : list pyval) :
  data !! "url" = Some video_url →
  actor_call_of w (PDict {[ "urls" := PList [video_url] ]}) = inr (PDict run) →
  run !! "defaultDatasetId" = Some dataset_id →
  dataset_items_of w dataset_id = inr results →
  Index.get_transcript w (inr (PDict data)) []
  = (inr (Response 200 {[ "dataset_id" := dataset_id;
                          "transcript" := PList results ]}),
     [CallActor (PDict {[ "urls" := PList [video_url] ]});
      CallDataset dataset_id]).
Proof.
  intros Hurl Hrun Hid Hitems.
  rewrite (RunFacts.index_get_transcript_run w _ _ Hurl). simpl.
  rewrite Hrun. unfold subscript, getitem. rewrite Hid.
  unfold outcome, ret. simpl. by rewrite Hitems.
Qed.

Lemma index_relays_dataset_witness :
  let w := apify_world (inr (PDict {[ "defaultDatasetId" := PStr "ds1" ]}))
                       (inr [PStr "first"; PStr "second"]) in
  outcome (Index.get_transcript w (inr (PDict {[ "url" := PStr sample_url ]})))
  = inr (Response 200 {[ "dataset_id" := PStr "ds1";
                         "transcript" := PList [PStr "first"; PStr "second"] ]}).
Proof.
  intros w. unfold outcome.
  rewrite (index_relays_dataset w {[ "url" := PStr sample_url ]}
             {[ "defaultDatasetId" := PStr "ds1" ]} (PStr sample_url)
             (PStr "ds1") [PStr "first"; PStr "second"]
             ltac:(by vm_compute) ltac:(by vm_compute)
             ltac:(by vm_compute) ltac:(by vm_compute)).
  reflexivity.
Defined.

(** X21: when the actor run raises, Service A answers 500 with the
    exception's message as the error, and no dataset is read. *)
Theorem index_actor_failure (w : world) (data : gmap string pyval)
  (video_url : pyval) (e : exn) :
  data !! "url" = Some video_url →
  actor_call_of w (PDict {[ "urls" := PList [video_url] ]}) = inl e →
  Index.get_transcript w (inr (PDict data)) []
  = (inr (Response 500 {[ "error" := PStr (exn_str e) ]}),
     [CallActor (PDict {[ "urls" := PList [video_url] ]})]).
Proof.
  intros Hurl Hrun.
  rewrite (RunFacts.index_get_transcript_run w _ _ Hurl). simpl.
  by rewrite Hrun.
Qed.

Lemma index_actor_failure_witness :
  let w := apify_world (inl (OtherException "quota exceeded")) (inr []) in
  outcome (Index.get_transcript w (inr (PDict {[ "url" := PStr sample_url ]})))
  = inr (Response 500 {[ "error" := PStr "quota exceeded" ]}).
Proof.
  intros w. unfold outcome.
  rewrite (index_actor_failure w {[ "url" := PStr sample_url ]}
             (PStr sample_url) (OtherException "quota exceeded")
             ltac:(by vm_compute) ltac:(by vm_compute)).
  reflexivity.
Defined.

(** X22: when the actor run answers with an object that has no
    [defaultDatasetId], the [KeyError] is caught: Service A answers 500 with
    the quoted key as the error, and no dataset is read. *)
Theorem index_run_without_dataset_id (w : world) (data run : gmap string pyval)
  (video_url : pyval) :
  data !! "url" = Some video_url →
  actor_call_of w (PDict {[ "urls" := PList [video_url] ]}) = inr (PDict run) →
  run !! "defaultDatasetId" = None →
  Index.get_transcript w (inr (PDict data)) []
  = (inr (Response 500 {[ "error" := PStr "'defaultDatasetId'" ]}),
     [CallActor (PDict {[ "urls" := PList [video_url] ]})]).
Proof.
  intros Hurl Hrun Hid.
  rewrite (RunFacts.index_get_transcript_run w _ _ Hurl). simpl.
  rewrite Hrun. unfold subscript, getitem. by rewrite Hid.
Qed.

Lemma index_run_without_dataset_id_witness :
  let w := apify_world (inr (PDict {[ "status" := PStr "FAILED" ]})) (inr []) in
  outcome (Index.get_transcript w (inr (PDict {[ "url" := PStr sample_url ]})))
  = inr (Response 500 {[ "error" := PStr "'defaultDatasetId'" ]}).
Proof.
  intros w. unfold outcome.
  rewrite (index_run_without_dataset_id w {[ "url" := PStr sample_url ]}
             {[ "status" := PStr "FAILED" ]} (PStr sample_url)
             ltac:(by vm_compute) ltac:(by vm_compute)
             ltac:(by vm_compute)).
  reflexivity.
Defined.

(** X23: when the dataset cannot be read, Service A answers 500 with the
    exception's message as the error, after the two calls. *)
Theorem index_dataset_failure (w : world) (data run : gmap string pyval)
  (video_url dataset_id : pyval) (e : exn) :
  data !! "url" = Some video_url →
  actor_call_of w (PDict {[ "urls" := PList [video_url] ]}) = inr (PDict run) →
  run !! "defaultDatasetId" = Some dataset_id →
  dataset_items_of w dataset_id = inl e →
  Index.get_transcript w (inr (PDict data)) []
  = (inr (Response 500 {[ "error" := PStr (exn_str e) ]}),
     [CallActor (PDict {[ "urls" := PList [video_url] ]});
      CallDataset dataset_id]).
Proof.
  intros Hurl Hrun Hid Hitems.
  rewrite (RunFacts.index_get_transcript_run w _ _ Hurl). simpl.
  rewrite Hrun. unfold subscript, getitem. rewrite Hid.
  unfold outcome, ret. simpl. by rewrite Hitems.
Qed.

Lemma index_dataset_failure_witness :
  let w := apify_world (inr (PDict {[ "defaultDatasetId" := PStr "ds1" ]}))
                       (inl (OtherException "dataset not found")) in
  outcome (Index.get_transcript w (inr (PDict {[ "url" := PStr sample_url ]})))
  = inr (Response 500 {[ "error" := PStr "dataset not found" ]}).
Proof.
  intros w. unfold outcome.
  rewrite (index_dataset_failure w {[ "url" := PStr sample_url ]}
             {[ "defaultDatasetId" := PStr "ds1" ]} (PStr sample_url)
             (PStr "ds1") (OtherException "dataset not found")
             ltac:(by vm_compute) ltac:(by vm_compute)
             ltac:(by vm_compute) ltac:(by vm_compute)).
  reflexivity.
Defined.

(** X24: Service A looks for the key [url] only: whatever its value, a
    null or an empty string as well, the request is not answered 400 and the
    actor is run on that value, first of all. *)
Theorem index_url_not_validated (w : world) (data : gmap string pyval)
  (video_url : pyval) :
  data !! "url" = Some video_url →
  ∃ r more,
    Index.get_transcript w (inr (PDict data)) []
    = (inr r, CallActor (PDict {[ "urls" := PList [video_url] ]}) :: more)
    ∧ (status r = 200 ∨ status r = 500).
Proof.
  intros Hurl. rewrite (RunFacts.index_get_transcript_run w _ _ Hurl). simpl.
  destruct (actor_call_of w _) as [e|run]; [eexists _, _; split; eauto|].
  destruct (outcome (subscript run "defaultDatasetId")) as [e|dataset_id];
    [eexists _, _; split; eauto|].
  destruct (dataset_items_of w dataset_id); eexists _, _; split; eauto.
Qed.

Lemma index_url_not_validated_witness :
  calls (Index.get_transcript metadata_down (inr (PDict {[ "url" := PStr "" ]})))
  = [CallActor (PDict {[ "urls" := PList [PStr ""] ]})]
  ∧ App.get_transcript metadata_down (Some "") [] = (inr App.missing_url, []).
Proof.
  destruct (index_url_not_validated metadata_down {[ "url" := PStr "" ]}
              (PStr "") ltac:(by vm_compute)) as (r & more & Hrun & _).
  split; reflexivity.
Defined.

(** ** What a request costs *)

(** X25: whatever the request and the providers, [/api/transcript] and
    [/api/video-data] make at most three outbound calls,
    [/api/video-info] at most one and Service A at most two; Service B never
    calls Apify and Service A calls nothing else. *)
Theorem outbound_calls_bounded (w : world) (url : option string)
  (data : exn + pyval) :
  ((length (calls (App.get_transcript w url)) ≤ 3)%nat
   ∧ Forall (λ c, is_apify_call c = false) (calls (App.get_transcript w url)))
  ∧ ((length (calls (App.get_video_info w url)) ≤ 1)%nat
     ∧ Forall (λ c, is_apify_call c = false) (calls (App.get_video_info w url)))
  ∧ ((length (calls (App.get_video_data w url)) ≤ 3)%nat
     ∧ Forall (λ c, is_apify_call c = false) (calls (App.get_video_data w url)))
  ∧ ((length (calls (Index.get_transcript w data)) ≤ 2)%nat
     ∧ Forall (λ c, is_apify_call c = true) (calls (Index.get_transcript w data))).
Proof.
  split; [|split; [|split]].
  - destruct url as [url|]; [|by split; [simpl; lia|constructor]].
    destruct (extract_video_id url) as [id|] eqn:Hid.
    + rewrite (RunFacts.get_transcript_calls w _ _ Hid),
        RunFacts.fetch_full_text_calls.
      destruct (list_transcripts_of w id) as [?|tl];
        [|destruct (find_transcript tl ["en"])];
        destruct (outcome (App.fetch_full_text w id));
        (split; [simpl; lia|by repeat constructor]).
    + unfold calls. rewrite (get_transcript_not_found w _ Hid).
      by split; [simpl; lia|constructor].
  - unfold App.get_video_info.
    destruct url as [[|a url]|]; try (by split; [simpl; lia|constructor]).
    unfold download_info. unfold_m.
    destruct (extract_info_of w (String a url)); simpl;
      (split; [lia|by repeat constructor]).
  - destruct url as [url|]; [|by split; [simpl; lia|constructor]].
    destruct (extract_video_id url) as [id|] eqn:Hid.
    + rewrite (RunFacts.get_video_data_calls w _ _ Hid),
        RunFacts.api_get_transcript_calls_explicit.
      destruct (list_transcripts_of w id) as [?|tl];
        [|destruct (find_transcript tl App.ALL_LANGUAGES)];
        (split; [simpl; lia|by repeat constructor]).
    + unfold calls. rewrite (get_video_data_not_found w _ Hid).
      by split; [simpl; lia|constructor].
  - assert ((∃ d, data = inr (PDict d)) ∨ ∀ d, data ≠ inr (PDict d))
      as [[d ->]|Hno].
    { destruct data as [e|[| | | | | |d]]; eauto. }
    2: { rewrite (RunFacts.index_get_transcript_no_object w _ Hno).
         by split; [simpl; lia|constructor]. }
    destruct (d !! "url") as [video_url|] eqn:Hurl.
    + unfold calls. rewrite (RunFacts.index_get_transcript_run w _ _ Hurl).
      simpl. destruct (actor_call_of w _) as [e|run];
        [by split; [simpl; lia|repeat constructor]|].
      destruct (outcome (subscript run "defaultDatasetId")) as [e|dataset_id];
        [by split; [simpl; lia|repeat constructor]|].
      destruct (dataset_items_of w dataset_id);
        by split; [simpl; lia|repeat constructor].
    + unfold calls. rewrite (RunFacts.index_get_transcript_no_url w _ Hurl).
      by split; [simpl; lia|constructor].
Qed.
